(** * Follow-up question manager: case selection, experiment runner,
      response parsing and result aggregation

    A shallow embedding of the core of the Streamlit application
    ([app.py], [database.py], [ai_service.py], [models.py]) together with
    the properties of its case-selection reconciliation, its batch runner,
    its response parser and its result aggregation.

    Conventions of the embedding.
    - A Python [str] is a [string] holding the UTF-8 encoding of the text
      (which is what a string literal of this file denotes as well).  All
      the patterns the program tests for are ASCII, so prefix, suffix and
      slicing by their length agree with the code-point operations.
    - Row identifiers are integers ([Z]); the sampling temperature, which
      the program only tests for truthiness and passes on, is a rational
      ([Qc]).
    - The hosted relational store is an in-memory record of tables, each a
      list of rows in insertion order, with a journal of the writing calls
      the gateway made.  A call of the gateway can fail: the client of the
      store raises, and the gateway shows the error and answers with the
      value of its handler (an empty list, [False] or [None]).  This is
      modelled for the two calls whose failure makes a caller leave
      rows it would not leave otherwise: [get_experiment_cases], after
      which the grid inserts case rows, and [clear_followups_by_answer],
      after which the runner inserts a follow-up.  The store carries
      the schedule of the failures of the coming calls of these two.
      The other calls succeed; the failure of one of them makes a page
      show or write less, never more.
    - Timestamps are left out of the rows: no modelled operation reads
      them, and ordering by creation time is the insertion order. *)

From Stdlib Require Import Ascii String NArith ZArith QArith Qcanon.
From stdpp Require Import base option list gmap strings numbers pretty.

Close Scope Q_scope.
Close Scope Qc_scope.

Local Open Scope string_scope.
Local Open Scope list_scope.

(** ** Python's built-in string operations *)

Module Py.

Definition code (c : ascii) : N := N_of_ascii c.

(** The ASCII characters for which [str.isspace] holds. *)
Definition space1 (c : ascii) : bool :=
  let n := code c in
  ((9 <=? n) && (n <=? 13) || (28 <=? n) && (n <=? 32))%N.

(** U+0085 and U+00A0. *)
Definition space2 (c1 c2 : ascii) : bool :=
  ((code c1 =? 194) && ((code c2 =? 133) || (code c2 =? 160)))%N.

(** U+1680, U+2000..U+200A, U+2028, U+2029, U+202F, U+205F, U+3000. *)
Definition space3 (c1 c2 c3 : ascii) : bool :=
  let a := code c1 in let b := code c2 in let c := code c3 in
  ((a =? 225) && (b =? 154) && (c =? 128)
   || (a =? 226) && (b =? 128)
      && ((128 <=? c) && (c <=? 138) || (c =? 168) || (c =? 169) || (c =? 175))
   || (a =? 226) && (b =? 129) && (c =? 159)
   || (a =? 227) && (b =? 128) && (c =? 128))%N.

(** [s.lstrip()] *)
Fixpoint lstrip (s : string) : string :=
  match s with
  | "" => ""
  | String c1 s1 =>
      if space1 c1 then lstrip s1 else
      match s1 with
      | String c2 s2 =>
          if space2 c1 c2 then lstrip s2 else
          match s2 with
          | String c3 s3 => if space3 c1 c2 c3 then lstrip s3 else s
          | "" => s
          end
      | "" => s
      end
  end.

(** [s.isspace() or not s]: nothing but white space. *)
Definition blank (s : string) : bool :=
  match lstrip s with "" => true | _ => false end.

(** [s.rstrip()]: drop the longest white suffix. *)
Fixpoint rstrip (s : string) : string :=
  match s with
  | "" => ""
  | String c s' => if blank s then "" else String c (rstrip s')
  end.

(** [s.strip()] *)
Definition strip (s : string) : string := rstrip (lstrip s).

(** Truth value of a string: [bool(s)]. *)
Definition truthy (s : string) : bool :=
  match s with "" => false | _ => true end.

(** [s.startswith(p)] *)
Definition startswith (s p : string) : bool := String.prefix p s.

(** [s.endswith(p)] *)
Fixpoint endswith (s p : string) : bool :=
  if String.eqb s p then true
  else match s with
       | "" => false
       | String _ s' => endswith s' p
       end.

(** [s[n:]] *)
Fixpoint drop (n : nat) (s : string) : string :=
  match n, s with
  | S n', String _ s' => drop n' s'
  | _, _ => s
  end.

(** [s[:n]] for [n >= 0] *)
Fixpoint take (n : nat) (s : string) : string :=
  match n, s with
  | S n', String c s' => String c (take n' s')
  | _, _ => ""
  end.

(** [s[:-n]] for [n > 0] *)
Definition drop_end (n : nat) (s : string) : string :=
  take (String.length s - n) s.

(** [s.split(sep)] for a one-character separator. *)
Fixpoint split (sep : ascii) (s : string) : list string :=
  match s with
  | "" => [""]
  | String c s' =>
      if Ascii.eqb c sep then "" :: split sep s'
      else match split sep s' with
           | h :: t => String c h :: t
           | [] => [String c ""]
           end
  end.

End Py.

(** ** The standard [json] module: values and [json.loads]

    [loads] follows the decoder of CPython for a [str] argument: white
    space is space, tab, line feed and carriage return; a number is an
    optional minus sign, an integer part (zero, or digits that do not
    start with zero), an optional fraction (a dot and digits) and an
    optional exponent (e or E, an optional sign, digits); [NaN],
    [Infinity] and [-Infinity] are accepted; strings are strict (no raw
    control character) and a [\uXXXX] escape is stored in UTF-8, a
    surrogate pair as the one code point it denotes.  A number is kept as
    its literal: the program never computes with one.  Neither the
    interpreter's recursion limit nor its bound on the digits of an
    integer literal is modelled: where CPython gives up on one of them,
    with an exception other than [JSONDecodeError], this decoder goes on.
    The properties of the parser that are stated for an arbitrary decoder
    cover these outcomes too. *)

Module Json.

#[warnings="-register-all"]
Inductive json : Type :=
| JNull
| JBool (b : bool)
| JNumber (literal : string)
| JString (s : string)
| JArray (items : list json)
| JObject (members : list (string * json)).

(** What a scanner yields: a value and the rest of the text, or a
    syntax error ([JSONDecodeError]), or the steps it was allowed are
    spent (which, with the steps [loads] allows, does not happen:
    [loads_decodes_or_rejects] below). *)
Inductive scan (A : Type) : Type :=
| Scanned (a : A) (rest : string)
| Malformed
| Exhausted.
Arguments Scanned {A} a rest.
Arguments Malformed {A}.
Arguments Exhausted {A}.

Definition is_ws (c : ascii) : bool :=
  let n := Py.code c in ((n =? 32) || (n =? 9) || (n =? 10) || (n =? 13))%N.

Fixpoint skip_ws (s : string) : string :=
  match s with
  | String c s' => if is_ws c then skip_ws s' else s
  | "" => ""
  end.

Definition is_digit (c : ascii) : bool :=
  let n := Py.code c in ((48 <=? n) && (n <=? 57))%N.

Definition hex_digit (c : ascii) : option N :=
  let n := Py.code c in
  if ((48 <=? n) && (n <=? 57))%N then Some (n - 48)%N
  else if ((97 <=? n) && (n <=? 102))%N then Some (n - 87)%N
  else if ((65 <=? n) && (n <=? 70))%N then Some (n - 55)%N
  else None.

(** Four hexadecimal digits: the code unit and what follows. *)
Definition hex4 (s : string) : option (N * string) :=
  match s with
  | String a (String b (String c (String d r))) =>
      match hex_digit a, hex_digit b, hex_digit c, hex_digit d with
      | Some x, Some y, Some z, Some w =>
          Some (((x * 16 + y) * 16 + z) * 16 + w, r)%N
      | _, _, _, _ => None
      end
  | _ => None
  end.

Definition byte (n : N) : ascii := ascii_of_N n.

(** The double quote. *)
Definition dquote : ascii := "034"%char.

(** UTF-8 of a code point (a lone surrogate is encoded like any other
    three-byte code point). *)
Definition utf8 (n : N) : string :=
  if (n <? 128)%N then String (byte n) ""
  else if (n <? 2048)%N then
    String (byte (192 + n / 64)) (String (byte (128 + n mod 64)) "")
  else if (n <? 65536)%N then
    String (byte (224 + n / 4096))
      (String (byte (128 + (n / 64) mod 64))
         (String (byte (128 + n mod 64)) ""))
  else
    String (byte (240 + n / 262144))
      (String (byte (128 + (n / 4096) mod 64))
         (String (byte (128 + (n / 64) mod 64))
            (String (byte (128 + n mod 64)) ""))).

Definition simple_escape (c : ascii) : option ascii :=
  match c with
  | "034"%char => Some dquote
  | "\"%char => Some "\"%char
  | "/"%char => Some "/"%char
  | "b"%char => Some (byte 8)
  | "f"%char => Some (byte 12)
  | "n"%char => Some (byte 10)
  | "r"%char => Some (byte 13)
  | "t"%char => Some (byte 9)
  | _ => None
  end.

Definition high_surrogate (u : N) : bool := ((55296 <=? u) && (u <=? 56319))%N.
Definition low_surrogate (u : N) : bool := ((56320 <=? u) && (u <=? 57343))%N.
Definition join_surrogates (hi lo : N) : N :=
  (65536 + (hi - 55296) * 1024 + (lo - 56320))%N.

(** The body of a string, after its opening quote. *)
Fixpoint scan_string (fuel : nat) (s acc : string) : scan string :=
  match fuel with
  | 0 => Exhausted
  | S fuel' =>
      match s with
      | "" => Malformed
      | String c r =>
          if Ascii.eqb c dquote then Scanned acc r
          else if Ascii.eqb c "\" then
            match r with
            | "" => Malformed
            | String e r2 =>
                if Ascii.eqb e "u" then
                  match hex4 r2 with
                  | None => Malformed
                  | Some (u, r3) =>
                      if high_surrogate u then
                        match r3 with
                        | String "\" (String "u" r4) =>
                            match hex4 r4 with
                            | None => Malformed
                            | Some (u2, r5) =>
                                if low_surrogate u2
                                then scan_string fuel' r5 (acc +:+ utf8 (join_surrogates u u2))
                                else scan_string fuel' r3 (acc +:+ utf8 u)
                            end
                        | _ => scan_string fuel' r3 (acc +:+ utf8 u)
                        end
                      else scan_string fuel' r3 (acc +:+ utf8 u)
                  end
                else
                  match simple_escape e with
                  | Some ch => scan_string fuel' r2 (acc +:+ String ch "")
                  | None => Malformed
                  end
            end
          else if (Py.code c <? 32)%N then Malformed
          else scan_string fuel' r (acc +:+ String c "")
      end
  end.

(** The longest run of digits at the head of a text. *)
Fixpoint digits (s : string) : string * string :=
  match s with
  | String c s' =>
      if is_digit c then let '(d, r) := digits s' in (String c d, r)
      else ("", s)
  | "" => ("", "")
  end.

(** The integer part, without sign: [0] or a run starting with [1-9]. *)
Definition scan_int (s : string) : option (string * string) :=
  match s with
  | String c s' =>
      if Ascii.eqb c "0" then Some ("0", s')
      else if is_digit c then Some (digits s)
      else None
  | "" => None
  end.

(** The optional fraction: a dot and at least one digit. *)
Definition scan_frac (s : string) : string * string :=
  match s with
  | String "." s' =>
      match digits s' with
      | ("", _) => ("", s)
      | (d, r) => (String "." d, r)
      end
  | _ => ("", s)
  end.

(** The optional exponent: [e] or [E], an optional sign, at least one
    digit. *)
Definition scan_exp (s : string) : string * string :=
  match s with
  | String c s' =>
      if Ascii.eqb c "e" || Ascii.eqb c "E" then
        let '(sign, s'') :=
          match s' with
          | String g t =>
              if Ascii.eqb g "+" || Ascii.eqb g "-" then (String g "", t) else ("", s')
          | "" => ("", s')
          end in
        match digits s'' with
        | ("", _) => ("", s)
        | (d, r) => (String c (sign +:+ d), r)
        end
      else ("", s)
  | "" => ("", s)
  end.

Definition scan_number (s : string) : option (string * string) :=
  let '(sign, s1) :=
    match s with
    | String "-" t => ("-", t)
    | _ => ("", s)
    end in
  match scan_int s1 with
  | None => None
  | Some (i, s2) =>
      let '(f, s3) := scan_frac s2 in
      let '(e, s4) := scan_exp s3 in
      Some (sign +:+ i +:+ f +:+ e, s4)
  end.

(** [Py.startswith s lit], handing back what follows the literal. *)
Definition literal (lit s : string) : option string :=
  if Py.startswith s lit then Some (Py.drop (String.length lit) s) else None.

Definition scan_atom (s : string) : scan json :=
  match scan_number s with
  | Some (n, r) => Scanned (JNumber n) r
  | None => Malformed
  end.

(** One value at the head of the text ([scan_once]), the members of an
    object after its brace, the items of an array after its bracket.  A
    test [Py.startswith s c] followed by [Py.drop 1 s] is the scanner
    looking at the character under its index and stepping over it. *)
Fixpoint scan_once (fuel : nat) (s : string) : scan json :=
  match fuel with
  | 0 => Exhausted
  | S fuel' =>
      if Py.startswith s (String dquote "") then
        match scan_string (S (String.length s)) (Py.drop 1 s) "" with
        | Scanned k r => Scanned (JString k) r
        | Malformed => Malformed
        | Exhausted => Exhausted
        end
      else if Py.startswith s "{" then
        let r := skip_ws (Py.drop 1 s) in
        if Py.startswith r "}" then Scanned (JObject []) (Py.drop 1 r)
        else scan_members fuel' r []
      else if Py.startswith s "[" then
        let r := skip_ws (Py.drop 1 s) in
        if Py.startswith r "]" then Scanned (JArray []) (Py.drop 1 r)
        else scan_items fuel' r []
      else
        match literal "null" s, literal "true" s, literal "false" s,
              literal "NaN" s, literal "Infinity" s, literal "-Infinity" s with
        | Some r, _, _, _, _, _ => Scanned JNull r
        | _, Some r, _, _, _, _ => Scanned (JBool true) r
        | _, _, Some r, _, _, _ => Scanned (JBool false) r
        | _, _, _, Some r, _, _ => Scanned (JNumber "NaN") r
        | _, _, _, _, Some r, _ => Scanned (JNumber "Infinity") r
        | _, _, _, _, _, Some r => Scanned (JNumber "-Infinity") r
        | None, None, None, None, None, None => scan_atom s
        end
  end
with scan_members (fuel : nat) (s : string) (acc : list (string * json)) : scan json :=
  match fuel with
  | 0 => Exhausted
  | S fuel' =>
      if Py.startswith s (String dquote "") then
        match scan_string (S (String.length s)) (Py.drop 1 s) "" with
        | Scanned k r1 =>
            let r1 := skip_ws r1 in
            if Py.startswith r1 ":" then
              match scan_once fuel' (skip_ws (Py.drop 1 r1)) with
              | Scanned v r2 =>
                  let r2 := skip_ws r2 in
                  if Py.startswith r2 "}"
                  then Scanned (JObject (acc ++ [(k, v)])) (Py.drop 1 r2)
                  else if Py.startswith r2 ","
                  then scan_members fuel' (skip_ws (Py.drop 1 r2)) (acc ++ [(k, v)])
                  else Malformed
              | Malformed => Malformed
              | Exhausted => Exhausted
              end
            else Malformed
        | Malformed => Malformed
        | Exhausted => Exhausted
        end
      else Malformed
  end
with scan_items (fuel : nat) (s : string) (acc : list json) : scan json :=
  match fuel with
  | 0 => Exhausted
  | S fuel' =>
      match scan_once fuel' s with
      | Scanned v r =>
          let r := skip_ws r in
          if Py.startswith r "]" then Scanned (JArray (acc ++ [v])) (Py.drop 1 r)
          else if Py.startswith r "," then scan_items fuel' (skip_ws (Py.drop 1 r)) (acc ++ [v])
          else Malformed
      | Malformed => Malformed
      | Exhausted => Exhausted
      end
  end.

(** The outcome of [json.loads]: a value, [JSONDecodeError], or another
    exception. *)
Inductive outcome : Type :=
| Decoded (v : json)
| DecodeError
| OtherError.

Definition loads (s : string) : outcome :=
  match scan_once (S (2 * String.length s)) (skip_ws s) with
  | Scanned v r =>
      match skip_ws r with
      | "" => Decoded v
      | _ => DecodeError
      end
  | Malformed => DecodeError
  | Exhausted => OtherError
  end.

(** A decoded object is a [dict]: of two members with one key the later
    one stands. *)
Fixpoint get (key : string) (members : list (string * json)) : option json :=
  match members with
  | [] => None
  | (k, v) :: rest =>
      match get key rest with
      | Some v' => Some v'
      | None => if String.eqb k key then Some v else None
      end
  end.

End Json.

(** ** [ai_service.py]: the generation client *)

Module Ai.

(** The line feed, and a run of spaces. *)
Definition nl : string := String "010"%char "".
Definition spaces (n : nat) : string := string_of_list_ascii (replicate n " "%char).
Definition quoted (s : string) : string :=
  String Json.dquote s +:+ String Json.dquote "".

(** A result of the client is a [dict] from field names to texts. *)
Abbreviation result := (gmap string string).

(** *** Parsing the response *)

(** The body of the loop of [_fallback_parse_response]: the state is the
    pair of [question] and [reason]. *)
Definition fallback_line (state : string * string) (line : string) : string * string :=
  let '(question, reason) := state in
  let line := Py.strip line in
  if Py.endswith line "?" then (line, reason)
  else if Py.truthy line && negb (Py.startswith line "{") && negb (Py.startswith line "}")
  then (if negb (Py.truthy reason) then (question, line) else (question, reason))
  else (question, reason).

Definition _fallback_parse_response (response_text : string) : result :=
  let lines := Py.split "010"%char (Py.strip response_text) in
  let '(question, reason) := fold_left fallback_line lines ("", "") in
  if Py.truthy question && Py.truthy reason
  then {[ "question" := question; "reason" := reason ]}
  else ∅.

(** The clean-up of [_parse_structured_response]: a leading and a
    trailing code fence are cut off the stripped text. *)
Definition cleaned (response_text : string) : string :=
  let cleaned_text := Py.strip response_text in
  let cleaned_text :=
    if Py.startswith cleaned_text "```json" then Py.drop 7 cleaned_text else cleaned_text in
  let cleaned_text :=
    if Py.endswith cleaned_text "```" then Py.drop_end 3 cleaned_text else cleaned_text in
  Py.strip cleaned_text.

(** [_parse_structured_response], over the decoder it calls.  A field
    that is not a string has no [strip]: the attribute error is caught by
    the last handler, as is any exception of the decoder other than
    [JSONDecodeError]. *)
Definition parse_structured_response_with
    (loads : string -> Json.outcome) (response_text : string) : result :=
  match loads (cleaned response_text) with
  | Json.Decoded (Json.JObject parsed) =>
      match Json.get "question" parsed, Json.get "reason" parsed with
      | Some q, Some r =>
          match q, r with
          | Json.JString q, Json.JString r =>
              let question := Py.strip q in
              let reason := Py.strip r in
              let question :=
                if Py.truthy question && negb (Py.endswith question "?")
                then question +:+ "?" else question in
              {[ "question" := question; "reason" := reason ]}
          | _, _ => ∅
          end
      | _, _ => ∅
      end
  | Json.Decoded _ => ∅
  | Json.DecodeError => _fallback_parse_response response_text
  | Json.OtherError => ∅
  end.

Definition _parse_structured_response : string -> result :=
  parse_structured_response_with Json.loads.

(** *** The service and the remote model *)

(** [AIService]: without an API key the constructor returns before it
    sets the two defaults, and reading one of them raises. *)
Record AIService := {
  api_key_present : bool;
  default_model : string;
  default_temperature : Qc
}.

Definition self_default_model (self : AIService) : option string :=
  if api_key_present self then Some (default_model self) else None.
Definition self_default_temperature (self : AIService) : option Qc :=
  if api_key_present self then Some (default_temperature self) else None.

(** What [generate_content] is called with. *)
Record GenRequest := {
  model_name : string;
  system_instruction : string;
  temperature : Qc;
  max_output_tokens : Z;
  content_prompt : string
}.

(** What the remote call yields: the text of the response (empty when
    there is none), or an exception. *)
Inductive ApiOutcome := ApiText (text : string) | ApiRaise.

(** [model or self.default_model] *)
Definition model_or (self : AIService) (model : option string) : option string :=
  match model with
  | Some m => if Py.truthy m then Some m else self_default_model self
  | None => self_default_model self
  end.

(** [temperature or self.default_temperature]: a float is true unless it
    is zero. *)
Definition temperature_or (self : AIService) (temperature : option Qc) : option Qc :=
  match temperature with
  | Some t => if bool_decide (t = 0%Qc) then self_default_temperature self else Some t
  | None => self_default_temperature self
  end.

Definition make_content_prompt (question answer : string) : string :=
  nl +:+ spaces 16 +:+ "Original Question: " +:+ question +:+ nl
  +:+ nl +:+ spaces 16 +:+ "User's Answer: " +:+ answer +:+ nl
  +:+ nl +:+ spaces 16 +:+ "Please generate exactly 1 thoughtful follow-up question based on the user's answer above, along with a clear reason explaining why this follow-up question is needed." +:+ nl
  +:+ nl +:+ spaces 16 +:+ "Format your response as a JSON object with exactly these two fields:" +:+ nl
  +:+ spaces 16 +:+ "{" +:+ nl
  +:+ spaces 20 +:+ quoted "question" +:+ ": " +:+ quoted "Your follow-up question here?" +:+ "," +:+ nl
  +:+ spaces 20 +:+ quoted "reason" +:+ ": " +:+ quoted "Explanation of why this follow-up question is needed" +:+ nl
  +:+ spaces 16 +:+ "}" +:+ nl
  +:+ nl +:+ spaces 16 +:+ "Make sure the question ends with a question mark and the reason is a clear, concise explanation. Even no question is generated, please provide a reason." +:+ nl
  +:+ spaces 12.

(** The part of [generate_followup_questions] before the remote call:
    the request it builds, or [None] when reading a default raised. *)
Definition build_request (self : AIService)
    (prompt_context question answer : string)
    (model : option string) (temperature : option Qc) : option GenRequest :=
  match model_or self model with
  | None => None
  | Some model_name =>
      match temperature_or self temperature with
      | None => None
      | Some temp =>
          Some {| model_name := model_name;
                  system_instruction := prompt_context;
                  temperature := temp;
                  max_output_tokens := 1000;
                  content_prompt := make_content_prompt question answer |}
      end
  end.

(** The client: the service, the outcomes the remote model is going to
    give to the coming calls, in order, and the requests sent so far.
    When no outcome is left the call fails. *)
Record Gemini := {
  service : AIService;
  pending : list ApiOutcome;
  sent : list GenRequest
}.

Definition generate_content (g : Gemini) (req : GenRequest) : ApiOutcome * Gemini :=
  match pending g with
  | [] => (ApiRaise, {| service := service g; pending := []; sent := sent g ++ [req] |})
  | r :: rest => (r, {| service := service g; pending := rest; sent := sent g ++ [req] |})
  end.

Definition generate_followup_questions_with (loads : string -> Json.outcome)
    (g : Gemini) (prompt_context question answer : string)
    (model : option string) (temperature : option Qc) : result * Gemini :=
  match build_request (service g) prompt_context question answer model temperature with
  | None => (∅, g)
  | Some req =>
      match generate_content g req with
      | (ApiText text, g') =>
          if Py.truthy text then (parse_structured_response_with loads text, g')
          else (∅, g')
      | (ApiRaise, g') => (∅, g')
      end
  end.

Definition generate_followup_questions :
    Gemini -> string -> string -> string -> option string -> option Qc -> result * Gemini :=
  generate_followup_questions_with Json.loads.

End Ai.

(** ** [models.py]: the rows *)

Module Prompt.
Record t := {
  id : Z;
  title : string;
  content : string;
  model : string;
  temperature : Qc
}.
End Prompt.

Module Question.
Record t := { id : Z; prompt_id : Z; question_text : string }.
End Question.

Module User.
Record t := { id : Z; name : string; email : option string }.
End User.

Module Answer.
Record t := { id : Z; question_id : Z; user_id : Z; answer_text : string }.
End Answer.

Module FollowupQuestion.
Record t := {
  id : Z;
  answer_id : Z;
  followup_text : string;
  reason : option string
}.
End FollowupQuestion.

Module Experiment.
Record t := { id : Z; name : string; description : string; prompt_id : Z }.
End Experiment.

Module ExperimentCase.
Record t := {
  id : Z;
  experiment_id : Z;
  question_id : Z;
  user_id : Z;
  is_selected : bool
}.

(** The pair a case stands for. *)
Definition key (c : t) : Z * Z := (question_id c, user_id c).

Definition with_selection (b : bool) (c : t) : t :=
  {| id := id c; experiment_id := experiment_id c;
     question_id := question_id c; user_id := user_id c; is_selected := b |}.
End ExperimentCase.

Module CaseResult.
Record t := {
  case : ExperimentCase.t;
  question : Question.t;
  answer : Answer.t;
  user : User.t;
  followup_questions : list FollowupQuestion.t
}.
End CaseResult.

(** ** [database.py]: the persistence gateway *)

Module Db.

(** A writing call of the gateway, whether the store carried it out or
    the client raised. *)
Inductive Write :=
| InsertCase (experiment_id question_id user_id : Z) (is_selected : bool)
| UpdateCase (case_id : Z) (is_selected : bool)
| DeleteFollowups (answer_id : Z)
| InsertFollowup (answer_id : Z) (followup_text : string) (reason : option string).

(** The tables, the next identifier of the two tables the core inserts
    into, the writing calls made so far, oldest first, and, for the
    coming calls of [get_experiment_cases] and
    [clear_followups_by_answer] taken together, whether the client of
    the store raises: [true] for a call that fails.  Once the schedule
    is used up the calls succeed. *)
Record Store := {
  questions : list Question.t;
  users : list User.t;
  answers : list Answer.t;
  followup_questions : list FollowupQuestion.t;
  experiment_cases : list ExperimentCase.t;
  next_followup_id : Z;
  next_case_id : Z;
  journal : list Write;
  faults : list bool
}.

(** Whether the client raises in the next call that can fail. *)
Definition raises (db : Store) : bool := default false (head (faults db)).

Definition get_questions_by_prompt (db : Store) (prompt_id : Z) : list Question.t :=
  filter (fun q => Question.prompt_id q = prompt_id) (questions db).

(** The store hands the users out ordered by name; the table is kept in
    that order. *)
Definition get_all_users (db : Store) : list User.t := users db.

(** The query of [get_selected_experiment_cases_with_data] for the
    question of a case: the first row with the identifier, if any. *)
Definition get_question_by_id (db : Store) (question_id : Z) : option Question.t :=
  head (filter (fun q => Question.id q = question_id) (questions db)).

Definition get_user_by_id (db : Store) (user_id : Z) : option User.t :=
  head (filter (fun u => User.id u = user_id) (users db)).

Definition get_answer_by_question_and_user (db : Store) (question_id user_id : Z)
    : option Answer.t :=
  head (filter (fun a => Answer.question_id a = question_id ∧ Answer.user_id a = user_id)
          (answers db)).

Definition get_followups_by_answer (db : Store) (answer_id : Z) : list FollowupQuestion.t :=
  filter (fun f => FollowupQuestion.answer_id f = answer_id) (followup_questions db).

Definition create_followup_question (db : Store) (answer_id : Z)
    (followup_text : string) (reason : option string)
    : option FollowupQuestion.t * Store :=
  let row := {| FollowupQuestion.id := next_followup_id db;
                FollowupQuestion.answer_id := answer_id;
                FollowupQuestion.followup_text := followup_text;
                FollowupQuestion.reason := reason |} in
  (Some row,
   {| questions := questions db; users := users db; answers := answers db;
      followup_questions := followup_questions db ++ [row];
      experiment_cases := experiment_cases db;
      next_followup_id := next_followup_id db + 1;
      next_case_id := next_case_id db;
      journal := journal db ++ [InsertFollowup answer_id followup_text reason];
      faults := faults db |}).

(** When the deletion raises, the handler answers [False] and the rows
    are as they were. *)
Definition clear_followups_by_answer (db : Store) (answer_id : Z) : bool * Store :=
  (negb (raises db),
   {| questions := questions db; users := users db; answers := answers db;
      followup_questions :=
        if raises db then followup_questions db
        else filter (fun f => FollowupQuestion.answer_id f ≠ answer_id)
               (followup_questions db);
      experiment_cases := experiment_cases db;
      next_followup_id := next_followup_id db;
      next_case_id := next_case_id db;
      journal := journal db ++ [DeleteFollowups answer_id];
      faults := tail (faults db) |}).

Definition create_experiment_case (db : Store)
    (experiment_id question_id user_id : Z) (is_selected : bool)
    : option ExperimentCase.t * Store :=
  let row := {| ExperimentCase.id := next_case_id db;
                ExperimentCase.experiment_id := experiment_id;
                ExperimentCase.question_id := question_id;
                ExperimentCase.user_id := user_id;
                ExperimentCase.is_selected := is_selected |} in
  (Some row,
   {| questions := questions db; users := users db; answers := answers db;
      followup_questions := followup_questions db;
      experiment_cases := experiment_cases db ++ [row];
      next_followup_id := next_followup_id db;
      next_case_id := next_case_id db + 1;
      journal := journal db ++ [InsertCase experiment_id question_id user_id is_selected];
      faults := faults db |}).

(** The store once a call that only reads is over. *)
Definition after_read (db : Store) : Store :=
  {| questions := questions db; users := users db; answers := answers db;
     followup_questions := followup_questions db;
     experiment_cases := experiment_cases db;
     next_followup_id := next_followup_id db;
     next_case_id := next_case_id db;
     journal := journal db;
     faults := tail (faults db) |}.

(** When the read raises, the handler answers with the empty list. *)
Definition get_experiment_cases (db : Store) (experiment_id : Z)
    : list ExperimentCase.t * Store :=
  (if raises db then []
   else filter (fun c => ExperimentCase.experiment_id c = experiment_id) (experiment_cases db),
   after_read db).

(** What the update of the rows with the identifier [case_id] does to a
    row. *)
Definition update_row (case_id : Z) (is_selected : bool) (c : ExperimentCase.t)
    : ExperimentCase.t :=
  if bool_decide (ExperimentCase.id c = case_id)
  then ExperimentCase.with_selection is_selected c else c.

Definition update_experiment_case_selection (db : Store) (case_id : Z) (is_selected : bool)
    : bool * Store :=
  (bool_decide (filter (fun c => ExperimentCase.id c = case_id) (experiment_cases db) ≠ []),
   {| questions := questions db; users := users db; answers := answers db;
      followup_questions := followup_questions db;
      experiment_cases := update_row case_id is_selected <$> experiment_cases db;
      next_followup_id := next_followup_id db;
      next_case_id := next_case_id db;
      journal := journal db ++ [UpdateCase case_id is_selected];
      faults := faults db |}).

(** The body of the loop of [get_selected_experiment_cases_with_data]:
    a case whose question, user or answer is not found is passed over. *)
Definition join_case (db : Store) (case : ExperimentCase.t) : option CaseResult.t :=
  match get_question_by_id db (ExperimentCase.question_id case) with
  | None => None
  | Some question =>
      match get_user_by_id db (ExperimentCase.user_id case) with
      | None => None
      | Some user =>
          match get_answer_by_question_and_user db
                  (ExperimentCase.question_id case) (ExperimentCase.user_id case) with
          | None => None
          | Some answer =>
              Some {| CaseResult.case := case;
                      CaseResult.question := question;
                      CaseResult.answer := answer;
                      CaseResult.user := user;
                      CaseResult.followup_questions :=
                        get_followups_by_answer db (Answer.id answer) |}
          end
      end
  end.

(** The first query of [get_selected_experiment_cases_with_data]: the
    cases of the experiment that are selected. *)
Definition selected_cases (db : Store) (experiment_id : Z) : list ExperimentCase.t :=
  filter (fun c => ExperimentCase.experiment_id c = experiment_id
                   ∧ ExperimentCase.is_selected c = true)
    (experiment_cases db).

Definition get_selected_experiment_cases_with_data (db : Store) (experiment_id : Z)
    : list CaseResult.t :=
  omap (join_case db) (selected_cases db experiment_id).

End Db.

(** ** [app.py]: case selection, the runner, the result page *)

Module App.

(** *** The widgets *)

(** The state of the session: the value of each keyed widget the user
    has set. *)
Abbreviation Session := (gmap string bool).

(** [st.checkbox(label, value=value, key=key)]: the value held by the
    session under the key, and [value] the first time the widget is
    drawn. *)
Definition checkbox (session : Session) (key : string) (value : bool) : bool :=
  default value (session !! key).

(** The key of the checkbox of a case. *)
Definition case_widget_key (experiment_id question_id user_id : Z) : string :=
  "case_" +:+ pretty experiment_id +:+ "_" +:+ pretty question_id +:+ "_" +:+ pretty user_id.

(** What the grid shows for a pair: a checkbox, with the value it was
    drawn with and the value it returned, or the mark of a missing
    answer. *)
Inductive Cell :=
| Offered (question_id user_id : Z) (value selected : bool)
| NoAnswer (question_id user_id : Z).

(** *** Case selection (in [experiments_page]) *)

(** [{(case.question_id, case.user_id): case for case in existing_cases}]:
    of two cases with one key the later one stands. *)
Definition case_keys (existing_cases : list ExperimentCase.t)
    : gmap (Z * Z) ExperimentCase.t :=
  foldl (fun m c => <[ExperimentCase.key c := c]> m) ∅ existing_cases.

(** [answer and answer.answer_text.strip()] *)
Definition has_answer (answer : option Answer.t) : bool :=
  match answer with
  | Some a => Py.truthy (Py.strip (Answer.answer_text a))
  | None => false
  end.

(** The body of the inner loop: one pair of the grid. *)
Definition case_cell (session : Session) (experiment : Experiment.t)
    (existing_case_keys : gmap (Z * Z) ExperimentCase.t)
    (question : Question.t) (state : Db.Store * list Cell) (user : User.t)
    : Db.Store * list Cell :=
  let '(db, grid) := state in
  let case_key := (Question.id question, User.id user) in
  let existing_case := existing_case_keys !! case_key in
  let answer := Db.get_answer_by_question_and_user db (Question.id question) (User.id user) in
  if has_answer answer then
    let is_selected :=
      match existing_case with
      | Some c => ExperimentCase.is_selected c
      | None => true
      end in
    let selected :=
      checkbox session
        (case_widget_key (Experiment.id experiment) (Question.id question) (User.id user))
        is_selected in
    let db :=
      match existing_case with
      | Some c =>
          if negb (eqb selected (ExperimentCase.is_selected c))
          then (Db.update_experiment_case_selection db (ExperimentCase.id c) selected).2
          else db
      | None =>
          if selected
          then (Db.create_experiment_case db (Experiment.id experiment)
                  (Question.id question) (User.id user) selected).2
          else db
      end in
    (db, grid ++ [Offered (Question.id question) (User.id user) is_selected selected])
  else (db, grid ++ [NoAnswer (Question.id question) (User.id user)]).

(** The grid of one experiment: the cases are read once, then every
    question is crossed with every user. *)
Definition case_grid (session : Session) (experiment : Experiment.t)
    (questions : list Question.t) (users : list User.t) (db : Db.Store)
    : Db.Store * list Cell :=
  let '(existing_cases, db) := Db.get_experiment_cases db (Experiment.id experiment) in
  let existing_case_keys := case_keys existing_cases in
  foldl (fun state question =>
           foldl (case_cell session experiment existing_case_keys question) state users)
    (db, []) questions.

(** The case selection of one experiment of the prompt: nothing is drawn
    when the prompt has no question or there is no user. *)
Definition case_selection (session : Session) (prompt : Prompt.t)
    (experiment : Experiment.t) (db : Db.Store) : Db.Store * list Cell :=
  let questions := Db.get_questions_by_prompt db (Prompt.id prompt) in
  let users := Db.get_all_users db in
  match questions, users with
  | [], _ => (db, [])
  | _, [] => (db, [])
  | _, _ => case_grid session experiment questions users db
  end.

(** *** The runner *)

(** What the runner needs of a generation client.  The client comes back
    with the result, as the call may change it. *)
Class GenerationClient (C : Type) :=
  generate_followup_questions :
    C -> string -> string -> string -> option string -> option Qc -> Ai.result * C.

#[global] Instance gemini_client : GenerationClient Ai.Gemini :=
  Ai.generate_followup_questions.

(** What a run shows when it ends, and the progress it showed on the
    way: after each case, how many are done out of how many. *)
Inductive Report :=
| NoSelectedCases
| Completed (total_cases : nat).

Record Run (C : Type) := {
  db_after : Db.Store;
  ai_after : C;
  progress : list (nat * nat);
  report : Report
}.
Arguments db_after {C}.
Arguments ai_after {C}.
Arguments progress {C}.
Arguments report {C}.

Section Runner.
Context {C : Type} `{GenerationClient C}.

(** The body of the loop of [run_experiment], but for the progress
    bar. *)
Definition run_case (prompt : Prompt.t) (state : Db.Store * C)
    (case_result : CaseResult.t) : Db.Store * C :=
  let '(db, ai) := state in
  let answer := CaseResult.answer case_result in
  let db := (Db.clear_followups_by_answer db (Answer.id answer)).2 in
  let '(followup_data, ai) :=
    generate_followup_questions ai
      (Prompt.content prompt)
      (Question.question_text (CaseResult.question case_result))
      (Answer.answer_text answer)
      (Some (Prompt.model prompt))
      (Some (Prompt.temperature prompt)) in
  let db :=
    if bool_decide (followup_data ≠ ∅) then
      match followup_data !! "question" with
      | Some text =>
          (Db.create_followup_question db (Answer.id answer) text
             (followup_data !! "reason")).2
      | None => db
      end
    else db in
  (db, ai).

Definition run_cases (prompt : Prompt.t) (state : Db.Store * C)
    (case_results : list CaseResult.t) : Db.Store * C :=
  foldl (run_case prompt) state case_results.

Definition run_experiment (db : Db.Store) (ai : C)
    (experiment : Experiment.t) (prompt : Prompt.t) : Run C :=
  let case_results := Db.get_selected_experiment_cases_with_data db (Experiment.id experiment) in
  match case_results with
  | [] => {| db_after := db; ai_after := ai; progress := []; report := NoSelectedCases |}
  | _ =>
      let total_cases := length case_results in
      let '(db', ai') := run_cases prompt (db, ai) case_results in
      {| db_after := db'; ai_after := ai';
         progress := (fun i => (i + 1, total_cases)) <$> seq 0 total_cases;
         report := Completed total_cases |}
  end.
End Runner.

(** *** The result page *)

Record UserData := {
  user : User.t;
  cases : list CaseResult.t
}.

(** The body of the grouping loop; [results_by_user] is a [dict], its
    entries in the order in which their keys came in. *)
Definition add_case (results_by_user : list (Z * UserData)) (case_result : CaseResult.t)
    : list (Z * UserData) :=
  let user_id := User.id (CaseResult.user case_result) in
  let results_by_user :=
    if bool_decide (user_id ∈ results_by_user.*1) then results_by_user
    else results_by_user ++ [(user_id, {| user := CaseResult.user case_result; cases := [] |})] in
  (fun entry : Z * UserData =>
     if bool_decide (entry.1 = user_id)
     then (entry.1, {| user := user entry.2; cases := cases entry.2 ++ [case_result] |})
     else entry) <$> results_by_user.

Definition group_by_user (case_results : list CaseResult.t) : list (Z * UserData) :=
  foldl add_case [] case_results.

Record Summary := {
  total_users : nat;
  total_questions : nat;
  total_cases : nat;
  total_followups : nat
}.

Definition summary (results_by_user : list (Z * UserData))
    (case_results : list CaseResult.t) : Summary :=
  {| total_users := length results_by_user;
     total_questions :=
       size (list_to_set ((fun c => Question.id (CaseResult.question c)) <$> case_results)
               : gset Z);
     total_cases := length case_results;
     total_followups :=
       sum_list ((fun c => length (CaseResult.followup_questions c)) <$> case_results) |}.

(** The grouping and the summary of [results_page]. *)
Definition aggregate (case_results : list CaseResult.t) : list (Z * UserData) * Summary :=
  let results_by_user := group_by_user case_results in
  (results_by_user, summary results_by_user case_results).

(** [results_page], from the experiment on: a warning and nothing else
    when the experiment has no case to show. *)
Definition results_page (db : Db.Store) (selected_experiment : Experiment.t)
    : option (list (Z * UserData) * Summary) :=
  match Db.get_selected_experiment_cases_with_data db (Experiment.id selected_experiment) with
  | [] => None
  | case_results => Some (aggregate case_results)
  end.

End App.

(** ** Notions the properties are stated with *)

(** A response that wraps its JSON in a code fence, and the same response
    after a few words of preamble. *)
Definition fenced_reply : string :=
  "```json {" +:+ Ai.quoted "question" +:+ ": " +:+ Ai.quoted "What next?" +:+ ", "
  +:+ Ai.quoted "reason" +:+ ": " +:+ Ai.quoted "clarify" +:+ "} ```".

Definition chatty_reply : string := "Sure! " +:+ fenced_reply.

(** The two shapes of a result of the generation client: the empty [dict],
    or a question and a reason, the question ending with a question mark
    unless it is empty. *)
Definition well_formed (r : Ai.result) : Prop :=
  r = ∅ ∨
  ∃ question reason : string,
    r = {[ "question" := question; "reason" := reason ]}
    ∧ (question ≠ "" → Py.endswith question "?" = true).

(** *** A small store to run the program on *)

Local Open Scope Z_scope.

Definition demo_service : Ai.AIService :=
  {| Ai.api_key_present := true;
     Ai.default_model := "gemini-2.0-flash";
     Ai.default_temperature := Q2Qc 0.7%Q |}.

Definition demo_prompt (temperature : Qc) : Prompt.t :=
  {| Prompt.id := 1; Prompt.title := "Onboarding";
     Prompt.content := "You are a careful interviewer.";
     Prompt.model := "gemini-1.5-pro"; Prompt.temperature := temperature |}.

Definition demo_experiment (id : Z) : Experiment.t :=
  {| Experiment.id := id; Experiment.name := "trial"; Experiment.description := "";
     Experiment.prompt_id := 1 |}.

Definition demo_question1 : Question.t :=
  {| Question.id := 1; Question.prompt_id := 1; Question.question_text := "What went well?" |}.
Definition demo_question2 : Question.t :=
  {| Question.id := 2; Question.prompt_id := 1; Question.question_text := "What was hard?" |}.
Definition demo_alice : User.t := {| User.id := 1; User.name := "Alice"; User.email := None |}.
Definition demo_bob : User.t := {| User.id := 2; User.name := "Bob"; User.email := None |}.

(** Alice has answered both questions, Bob the first one; for the second
    one Bob has a row with blanks only.  No experiment has a case yet. *)
Definition demo_db : Db.Store :=
  {| Db.questions := [demo_question1; demo_question2];
     Db.users := [demo_alice; demo_bob];
     Db.answers :=
       [ {| Answer.id := 10; Answer.question_id := 1; Answer.user_id := 1; Answer.answer_text := "The tooling." |};
         {| Answer.id := 11; Answer.question_id := 1; Answer.user_id := 2; Answer.answer_text := "Not sure" |};
         {| Answer.id := 12; Answer.question_id := 2; Answer.user_id := 1; Answer.answer_text := "The schedule." |};
         {| Answer.id := 13; Answer.question_id := 2; Answer.user_id := 2; Answer.answer_text := "   " |} ];
     Db.followup_questions := [];
     Db.experiment_cases := [];
     Db.next_followup_id := 1;
     Db.next_case_id := 1;
     Db.journal := [];
     Db.faults := [] |}.

(** The store once the grid of an experiment has been drawn for the first
    time, no box touched. *)
Definition demo_selected (experiment_id : Z) (db : Db.Store) : Db.Store :=
  (App.case_selection ∅ (demo_prompt 1) (demo_experiment experiment_id) db).1.

(** A response of the remote model: a JSON object with the two fields. *)
Definition reply (question reason : string) : Ai.ApiOutcome :=
  Ai.ApiText ("{" +:+ Ai.quoted "question" +:+ ": " +:+ Ai.quoted question +:+ ", "
              +:+ Ai.quoted "reason" +:+ ": " +:+ Ai.quoted reason +:+ "}").

Definition demo_client (pending : list Ai.ApiOutcome) : Ai.Gemini :=
  {| Ai.service := demo_service; Ai.pending := pending; Ai.sent := [] |}.

Local Close Scope Z_scope.

(** *** Grouping *)

(** The identifiers of a list that were not seen before, in the order in
    which they come. *)
Fixpoint first_seen (seen ids : list Z) : list Z :=
  match ids with
  | [] => []
  | x :: rest =>
      if bool_decide (x ∈ seen) then first_seen seen rest
      else x :: first_seen (x :: seen) rest
  end.

Definition user_id_of (c : CaseResult.t) : Z := User.id (CaseResult.user c).
Definition question_id_of (c : CaseResult.t) : Z := Question.id (CaseResult.question c).

(** The cases of one user, in the order of the input. *)
Definition cases_of (user_id : Z) (case_results : list CaseResult.t) : list CaseResult.t :=
  filter (fun c => user_id_of c = user_id) case_results.

(** *** A selected case on an answer without text *)

Local Open Scope Z_scope.

Definition textless_db : Db.Store :=
  {| Db.questions :=
       [ {| Question.id := 1; Question.prompt_id := 1; Question.question_text := "What went well?" |} ];
     Db.users := [ {| User.id := 1; User.name := "Alice"; User.email := None |} ];
     Db.answers :=
       [ {| Answer.id := 10; Answer.question_id := 1; Answer.user_id := 1; Answer.answer_text := "" |} ];
     Db.followup_questions := [];
     Db.experiment_cases :=
       [ {| ExperimentCase.id := 1; ExperimentCase.experiment_id := 7;
            ExperimentCase.question_id := 1; ExperimentCase.user_id := 1;
            ExperimentCase.is_selected := true |} ];
     Db.next_followup_id := 1;
     Db.next_case_id := 2;
     Db.journal := [];
     Db.faults := [] |}.

Local Close Scope Z_scope.

(** *** Case rows *)

(** The experiment and the pair a case row stands for. *)
Definition tuple (c : ExperimentCase.t) : Z * Z * Z :=
  (ExperimentCase.experiment_id c, ExperimentCase.question_id c, ExperimentCase.user_id c).

(** At most one case row for an experiment and a pair. *)
Definition cases_unique (db : Db.Store) : Prop :=
  NoDup (tuple <$> Db.experiment_cases db).

(** The identifiers of the questions and of the users are keys of their
    tables. *)
Definition ids_unique (db : Db.Store) : Prop :=
  NoDup (Question.id <$> Db.questions db) ∧ NoDup (User.id <$> Db.users db).

(** Whether the pair has an answer with text, as the grid tests it. *)
Definition answered (db : Db.Store) (question_id user_id : Z) : bool :=
  App.has_answer (Db.get_answer_by_question_and_user db question_id user_id).

(** All the tables but the one of the cases, and the counter of the
    follow-ups, are the same in two stores. *)
Definition same_but_cases (db db' : Db.Store) : Prop :=
  Db.questions db' = Db.questions db
  ∧ Db.users db' = Db.users db
  ∧ Db.answers db' = Db.answers db
  ∧ Db.followup_questions db' = Db.followup_questions db
  ∧ Db.next_followup_id db' = Db.next_followup_id db.

(** The store with another schedule of failures. *)
Definition failing (faults : list bool) (db : Db.Store) : Db.Store :=
  {| Db.questions := Db.questions db; Db.users := Db.users db;
     Db.answers := Db.answers db;
     Db.followup_questions := Db.followup_questions db;
     Db.experiment_cases := Db.experiment_cases db;
     Db.next_followup_id := Db.next_followup_id db;
     Db.next_case_id := Db.next_case_id db;
     Db.journal := Db.journal db;
     Db.faults := faults |}.

(** The life of a store whose reads of the case rows do not fail: the
    grid of some experiment is drawn, under any state of the session,
    with a read that succeeds, or something else happens that leaves the
    case rows alone (an answer is saved or deleted, a user or a question
    is added, an experiment is run, the schedule of the failures
    changes). *)
Inductive evolves : Db.Store → Db.Store → Prop :=
| evolves_here db : evolves db db
| evolves_selection db db' session prompt experiment :
    evolves db db' →
    Db.raises db' = false →
    evolves db (App.case_selection session prompt experiment db').1
| evolves_elsewhere db db' db'' :
    evolves db db' →
    Db.experiment_cases db'' = Db.experiment_cases db' →
    ids_unique db'' →
    evolves db db''.

(** The pairs of the grid, in the order in which they are drawn. *)
Definition pairs_of (question : Question.t) (users : list User.t) : list (Z * Z) :=
  (fun user => (Question.id question, User.id user)) <$> users.

Definition all_pairs (questions : list Question.t) (users : list User.t) : list (Z * Z) :=
  questions ≫= fun question => pairs_of question users.

(** The state of the grid after the pairs [processed]: the tables other
    than the one of the cases are those of the store the grid started
    from; the rows are those it started from, perhaps updated, followed
    by a row for some processed pairs that had no case and have an
    answer; a box was offered only for a pair with an answer. *)
Definition grid_inv (db0 : Db.Store) (e : Z) (keys : gmap (Z * Z) ExperimentCase.t)
    (processed : list (Z * Z)) (st : Db.Store * list App.Cell) : Prop :=
  same_but_cases db0 st.1
  ∧ (∃ new : list (Z * Z),
       tuple <$> Db.experiment_cases st.1
       = (tuple <$> Db.experiment_cases db0) ++ ((fun p => (e, p.1, p.2)) <$> new)
       ∧ new ⊆ processed
       ∧ NoDup new
       ∧ ∀ p, p ∈ new → keys !! p = None ∧ answered db0 p.1 p.2 = true)
  ∧ (∀ q u v s, App.Offered q u v s ∈ st.2 → answered db0 q u = true)
  ∧ (∀ q u, App.NoAnswer q u ∈ st.2 → answered db0 q u = false).

(** *** Drawing the grid twice *)

(** The identifiers of the case rows are keys of the table, and below
    the next one to be given. *)
Definition case_ids_fresh (db : Db.Store) : Prop :=
  NoDup (ExperimentCase.id <$> Db.experiment_cases db)
  ∧ ∀ c, c ∈ Db.experiment_cases db → (ExperimentCase.id c < Db.next_case_id db)%Z.

(** The box of a pair has nothing to say to these rows: drawn with the
    stored value of a row of the pair it comes back with that value, and
    when the pair has no row it comes back unticked. *)
Definition settled (session : App.Session) (e : Z) (rows : list ExperimentCase.t)
    (p : Z * Z) : Prop :=
  (∀ c, c ∈ rows → tuple c = (e, p.1, p.2) →
     App.checkbox session (App.case_widget_key e p.1 p.2) (ExperimentCase.is_selected c)
     = ExperimentCase.is_selected c)
  ∧ ((∀ c, c ∈ rows → tuple c ≠ (e, p.1, p.2)) →
     App.checkbox session (App.case_widget_key e p.1 p.2) true = false).

(** What a row is known by: its identifier, and the experiment and the
    pair it stands for. *)
Definition skeleton (c : ExperimentCase.t) : Z * (Z * Z * Z) := (ExperimentCase.id c, tuple c).

(** The state of a drawing of the grid after the pairs [processed]. *)
Definition pass_inv (session : App.Session) (db0 : Db.Store) (e : Z)
    (processed : list (Z * Z)) (st : Db.Store * list App.Cell) : Prop :=
  same_but_cases db0 st.1
  ∧ (∃ extra, skeleton <$> Db.experiment_cases st.1
              = (skeleton <$> Db.experiment_cases db0) ++ extra)
  ∧ case_ids_fresh st.1
  ∧ (∀ p, p ∈ processed → answered db0 p.1 p.2 = true →
       settled session e (Db.experiment_cases st.1) p)
  ∧ (∀ p c, p ∉ processed → c ∈ Db.experiment_cases st.1 → tuple c = (e, p.1, p.2) →
       c ∈ Db.experiment_cases db0).

(** *** Runs *)

Definition answer_id_of (case_result : CaseResult.t) : Z :=
  Answer.id (CaseResult.answer case_result).

(** Whether a result of the client carries a question. *)
Definition has_question (r : Ai.result) : bool := bool_decide (is_Some (r !! "question")).

(** The writes of the runner for a case whose generation gave [r]: the
    follow-ups of the answer are deleted, and one is inserted when [r]
    carries a question. *)
Definition case_writes (case_result : CaseResult.t) (r : Ai.result) : list Db.Write :=
  Db.DeleteFollowups (answer_id_of case_result)
  :: match r !! "question" with
     | Some text => [Db.InsertFollowup (answer_id_of case_result) text (r !! "reason")]
     | None => []
     end.

(** The text and the reason of the follow-up a result gives rise to, if
    any. *)
Definition expected (r : Ai.result) : list (string * option string) :=
  match r !! "question" with
  | Some text => [(text, r !! "reason")]
  | None => []
  end.

Definition texts (followups : list FollowupQuestion.t) : list (string * option string) :=
  (fun f => (FollowupQuestion.followup_text f, FollowupQuestion.reason f)) <$> followups.

Definition is_insert_followup (w : Db.Write) : bool :=
  match w with Db.InsertFollowup _ _ _ => true | _ => false end.

(** Whether the client raises in the [i]-th, counted from 0, of the
    coming calls that can fail: for a run from this store, in the
    deletion for the [i]-th case. *)
Definition fails_at (db : Db.Store) (i : nat) : bool := default false (Db.faults db !! i).

(** The identifiers of the follow-ups are below the next one to be
    given. *)
Definition followup_ids_fresh (db : Db.Store) : Prop :=
  ∀ f, f ∈ Db.followup_questions db → (FollowupQuestion.id f < Db.next_followup_id db)%Z.

(** All the tables but the one of the follow-ups are the same in two
    stores. *)
Definition same_but_followups (db db' : Db.Store) : Prop :=
  Db.questions db' = Db.questions db
  ∧ Db.users db' = Db.users db
  ∧ Db.answers db' = Db.answers db
  ∧ Db.experiment_cases db' = Db.experiment_cases db
  ∧ Db.next_case_id db' = Db.next_case_id db.

(** A joined case with the follow-ups its answer has in [db]. *)
Definition refreshed (db : Db.Store) (cr : CaseResult.t) : CaseResult.t :=
  {| CaseResult.case := CaseResult.case cr;
     CaseResult.question := CaseResult.question cr;
     CaseResult.answer := CaseResult.answer cr;
     CaseResult.user := CaseResult.user cr;
     CaseResult.followup_questions :=
       Db.get_followups_by_answer db (Answer.id (CaseResult.answer cr)) |}.

Section RunNotions.
Context {C : Type} `{!App.GenerationClient C}.

(** The call of the client for a case. *)
Definition ask (prompt : Prompt.t) (ai : C) (case_result : CaseResult.t) : Ai.result * C :=
  App.generate_followup_questions ai
    (Prompt.content prompt)
    (Question.question_text (CaseResult.question case_result))
    (Answer.answer_text (CaseResult.answer case_result))
    (Some (Prompt.model prompt))
    (Some (Prompt.temperature prompt)).

(** The results the client gives along a run, case by case. *)
Fixpoint generated (prompt : Prompt.t) (ai : C) (case_results : list CaseResult.t)
    : list Ai.result :=
  match case_results with
  | [] => []
  | case_result :: rest =>
      (ask prompt ai case_result).1 :: generated prompt (ask prompt ai case_result).2 rest
  end.
End RunNotions.

(** *** A store with follow-ups and a case that is no longer selected *)

(** Experiment 7 is run once over its three cases; then the box of Bob
    for the first question is unticked. *)
Definition demo_first_run : App.Run Ai.Gemini :=
  App.run_experiment (demo_selected 7 demo_db)
    (demo_client [reply "Which tool?" "to be specific";
                  reply "What is unclear?" "to help";
                  reply "Which deadline?" "to plan"])
    (demo_experiment 7) (demo_prompt 1).

Definition demo_deselected : Db.Store :=
  (App.case_selection {[ "case_7_1_2" := false ]} (demo_prompt 1) (demo_experiment 7)
     (App.db_after demo_first_run)).1.

(** The joined case of Alice and the first question, for the case row
    with the given identifier of the given experiment. *)
Definition demo_case_result (case_id experiment_id : Z) : CaseResult.t :=
  {| CaseResult.case :=
       {| ExperimentCase.id := case_id; ExperimentCase.experiment_id := experiment_id;
          ExperimentCase.question_id := 1; ExperimentCase.user_id := 1;
          ExperimentCase.is_selected := true |};
     CaseResult.question := demo_question1;
     CaseResult.answer :=
       {| Answer.id := 10; Answer.question_id := 1; Answer.user_id := 1;
          Answer.answer_text := "The tooling." |};
     CaseResult.user := demo_alice;
     CaseResult.followup_questions := [] |}.

(** *** Responses *)

(** A text between an opening and a closing code fence. *)
Definition fenced (text : string) : string := "```json" +:+ text +:+ "```".

(** The lines the fallback parser reads a question or a reason from: a
    line that ends with a question mark, and a line that is not empty,
    does not end with a question mark and does not open with a brace. *)
Definition question_line (line : string) : Prop := Py.endswith line "?" = true.
Definition reason_line (line : string) : Prop :=
  Py.endswith line "?" = false ∧ line ≠ ""
  ∧ Py.startswith line "{" = false ∧ Py.startswith line "}" = false.

#[global] Instance question_line_dec (line : string) : Decision (question_line line) :=
  decide (Py.endswith line "?" = true).
#[global] Instance reason_line_dec (line : string) : Decision (reason_line line) :=
  decide (Py.endswith line "?" = false ∧ line ≠ ""
          ∧ Py.startswith line "{" = false ∧ Py.startswith line "}" = false).

(** *** Requests *)

(** The request for a case under a prompt: the content of the prompt as
    system instruction, its model and its temperature, and the question
    and the answer of the case in the content. *)
Definition request_of (prompt : Prompt.t) (case_result : CaseResult.t) : Ai.GenRequest :=
  {| Ai.model_name := Prompt.model prompt;
     Ai.system_instruction := Prompt.content prompt;
     Ai.temperature := Prompt.temperature prompt;
     Ai.max_output_tokens := 1000;
     Ai.content_prompt :=
       Ai.make_content_prompt (Question.question_text (CaseResult.question case_result))
         (Answer.answer_text (CaseResult.answer case_result)) |}.

(** *** Groups *)

(** The cases of all the groups, group after group. *)
Definition grouped_cases (results_by_user : list (Z * App.UserData)) : list CaseResult.t :=
  concat (App.cases <$> results_by_user.*2).

(** * Properties *)

(** A decidable fact about given data, settled by evaluating its
    decision. *)
Ltac by_computing := apply (bool_decide_unpack _); vm_compute; exact I.

(** ** Strings *)

Lemma endswith_unfold (s p : string) :
  Py.endswith s p =
  if String.eqb s p then true
  else match s with "" => false | String _ s' => Py.endswith s' p end.
Proof. by destruct s. Qed.

Lemma endswith_refl (s : string) : Py.endswith s s = true.
Proof. by rewrite endswith_unfold, String.eqb_refl. Qed.

Lemma endswith_app (s p : string) : Py.endswith (s +:+ p) p = true.
Proof.
  induction s as [|c s IH].
  - apply endswith_refl.
  - change (String c s +:+ p) with (String c (s +:+ p)).
    rewrite endswith_unfold, IH. by destruct (String.eqb _ _).
Qed.

Lemma truthy_nonempty (s : string) : Py.truthy s = true ↔ s ≠ "".
Proof. destruct s; simpl; split; congruence. Qed.

(** ** The decoder takes no more steps than it is given *)

Lemma skip_ws_length (s : string) :
  (String.length (Json.skip_ws s) ≤ String.length s)%nat.
Proof.
  induction s as [|c s IH]; simpl; [done|]. destruct (Json.is_ws c); simpl; lia.
Qed.

Lemma hex4_length (s r : string) (u : N) :
  Json.hex4 s = Some (u, r) → String.length s = 4 + String.length r.
Proof.
  unfold Json.hex4.
  destruct s as [|a [|b [|c [|d s]]]]; try done.
  destruct (Json.hex_digit a), (Json.hex_digit b), (Json.hex_digit c), (Json.hex_digit d);
    try done.
  by intros [= _ <-].
Qed.

Lemma scan_string_steps (fuel : nat) (s acc : string) :
  (String.length s < fuel)%nat →
  Json.scan_string fuel s acc ≠ Json.Exhausted
  ∧ ∀ k r, Json.scan_string fuel s acc = Json.Scanned k r →
           (String.length r < String.length s)%nat.
Proof.
  revert s acc. induction fuel as [|fuel IH]; intros s acc Hlen; [lia|].
  destruct s as [|c r]; [done|]. cbn [Json.scan_string]. simpl in Hlen.
  destruct (Ascii.eqb c Json.dquote).
  { split; [done|]. intros k r' [= _ <-]. simpl. lia. }
  destruct (Ascii.eqb c "\").
  2: { destruct (Py.code c <? 32)%N; [done|].
       destruct (IH r (acc +:+ String c "")) as [He Hr]; [lia|].
       split; [done|]. intros k r' Hs. apply Hr in Hs. simpl. lia. }
  destruct r as [|e r2]; [done|]. simpl in Hlen.
  destruct (Ascii.eqb e "u").
  2: { destruct (Json.simple_escape e) as [ch|]; [|done].
       destruct (IH r2 (acc +:+ String ch "")) as [He Hr]; [lia|].
       split; [done|]. intros k r' Hs. apply Hr in Hs. simpl. lia. }
  destruct (Json.hex4 r2) as [[u r3]|] eqn:Hu; [|done].
  apply hex4_length in Hu.
  assert (∀ acc', Json.scan_string fuel r3 acc' ≠ Json.Exhausted
                  ∧ ∀ k r', Json.scan_string fuel r3 acc' = Json.Scanned k r' →
                            (String.length r' < String.length (String c (String e r2)))%nat)
    as Hplain.
  { intros acc'. destruct (IH r3 acc') as [He Hr]; [lia|].
    split; [done|]. intros k r' Hs. apply Hr in Hs. simpl. lia. }
  destruct (Json.high_surrogate u); [|apply Hplain].
  destruct r3 as [|b1 [|b2 r4]].
  - apply Hplain.
  - destruct b1 as [[] [] [] [] [] [] [] []]; apply Hplain.
  - destruct (Ascii.eqb_spec b1 "\") as [->|Hb1].
    2: { destruct b1 as [[] [] [] [] [] [] [] []]; try apply Hplain; by destruct Hb1. }
    destruct (Ascii.eqb_spec b2 "u") as [->|Hb2].
    2: { destruct b2 as [[] [] [] [] [] [] [] []]; try apply Hplain; by destruct Hb2. }
    destruct (Json.hex4 r4) as [[u2 r5]|] eqn:Hu2; [|done].
    apply hex4_length in Hu2. simpl in Hu.
    destruct (Json.low_surrogate u2); [|apply Hplain].
    destruct (IH r5 (acc +:+ Json.utf8 (Json.join_surrogates u u2))) as [He Hr]; [lia|].
    split; [done|]. intros k r' Hs. apply Hr in Hs. simpl. lia.
Qed.

Lemma scan_string_rest (s acc k r : string) :
  Json.scan_string (S (String.length s)) (Py.drop 1 s) acc = Json.Scanned k r →
  (String.length r < String.length (Py.drop 1 s))%nat.
Proof.
  apply scan_string_steps. clear. destruct s as [|c s]; simpl; lia.
Qed.

Lemma scan_string_enough (s acc : string) :
  Json.scan_string (S (String.length s)) (Py.drop 1 s) acc ≠ Json.Exhausted.
Proof.
  apply scan_string_steps. clear. destruct s as [|c s]; simpl; lia.
Qed.

Lemma drop_length (n : nat) (s : string) :
  (String.length (Py.drop n s) ≤ String.length s)%nat.
Proof.
  revert s. induction n as [|n IH]; intros [|c s]; simpl; try lia.
  specialize (IH s). lia.
Qed.

Lemma drop_one_after (s p : string) :
  p ≠ "" → Py.startswith s p = true →
  (String.length (Py.drop 1 s) < String.length s)%nat.
Proof.
  intros Hp Hs. destruct s as [|c s]; simpl; [|lia].
  by destruct p.
Qed.

Lemma digits_length (s d r : string) :
  Json.digits s = (d, r) → (String.length r ≤ String.length s)%nat.
Proof.
  revert d r. induction s as [|c s IH]; intros d r; simpl.
  - by intros [= _ <-].
  - destruct (Json.is_digit c).
    + destruct (Json.digits s) as [d' r']. intros [= _ <-].
      specialize (IH d' r' eq_refl). lia.
    + intros [= _ <-]. done.
Qed.

Lemma scan_number_length (s n r : string) :
  Json.scan_number s = Some (n, r) → (String.length r ≤ String.length s)%nat.
Proof.
  unfold Json.scan_number.
  set (signed := match s with String "-" t => ("-", t) | _ => ("", s) end).
  assert (String.length signed.2 ≤ String.length s)%nat as Hsign.
  { subst signed. destruct s as [|c s]; [done|].
    destruct (Ascii.eqb_spec c "-") as [->|Hc]; [simpl; lia|].
    destruct c as [[] [] [] [] [] [] [] []]; try done. }
  destruct signed as [sign s1]. simpl in Hsign.
  destruct (Json.scan_int s1) as [[i s2]|] eqn:Hint; [|done].
  assert (String.length s2 ≤ String.length s1)%nat as Hi.
  { unfold Json.scan_int in Hint. destruct s1 as [|c s1]; [done|].
    destruct (Ascii.eqb c "0"); [injection Hint as _ <-; simpl; lia|].
    destruct (Json.is_digit c) eqn:Hc; [|done]. injection Hint as Hd.
    exact (digits_length (String c s1) i s2 Hd). }
  destruct (Json.scan_frac s2) as [f s3] eqn:Hfrac.
  assert (String.length s3 ≤ String.length s2)%nat as Hf.
  { unfold Json.scan_frac in Hfrac. destruct s2 as [|c s2]; [by injection Hfrac as _ <-|].
    destruct (Ascii.eqb_spec c ".") as [->|Hc].
    - destruct (Json.digits s2) as [d r'] eqn:Hd. apply digits_length in Hd.
      destruct d; injection Hfrac as _ <-; simpl; lia.
    - destruct c as [[] [] [] [] [] [] [] []]; try (by injection Hfrac as _ <-).
      by destruct Hc. }
  destruct (Json.scan_exp s3) as [e s4] eqn:Hexp.
  assert (String.length s4 ≤ String.length s3)%nat as He.
  { unfold Json.scan_exp in Hexp. destruct s3 as [|c s3]; [by injection Hexp as _ <-|].
    destruct (Ascii.eqb c "e" || Ascii.eqb c "E"); [|by injection Hexp as _ <-].
    set (signed := match s3 with
                   | "" => ("", s3)
                   | String g t =>
                       if Ascii.eqb g "+" || Ascii.eqb g "-" then (String g "", t) else ("", s3)
                   end) in Hexp.
    assert (String.length signed.2 ≤ String.length s3)%nat as Hs.
    { subst signed. destruct s3 as [|g t]; [done|].
      destruct (Ascii.eqb g "+" || Ascii.eqb g "-"); simpl; lia. }
    destruct signed as [sg s3']. simpl in Hs.
    destruct (Json.digits s3') as [d r'] eqn:Hd. apply digits_length in Hd.
    destruct d; injection Hexp as _ <-; simpl; lia. }
  intros [= _ <-]. lia.
Qed.

Lemma literal_length (lit s r : string) :
  Json.literal lit s = Some r → (String.length r ≤ String.length s)%nat.
Proof.
  unfold Json.literal. destruct (Py.startswith s lit); [|done].
  intros [= <-]. apply drop_length.
Qed.

Lemma scan_atom_length (s : string) (v : Json.json) (r : string) :
  Json.scan_atom s = Json.Scanned v r → (String.length r ≤ String.length s)%nat.
Proof.
  unfold Json.scan_atom. destruct (Json.scan_number s) as [[n r']|] eqn:Hn; [|done].
  intros [= _ <-]. by eapply scan_number_length.
Qed.

Lemma scan_atom_steps (s : string) : Json.scan_atom s ≠ Json.Exhausted.
Proof. unfold Json.scan_atom. by destruct (Json.scan_number s) as [[??]|]. Qed.

#[local] Arguments Py.drop : simpl never.

(** What a scanner leaves is no longer than what it was given. *)
Lemma scan_rest (fuel : nat) :
  (∀ s v r, Json.scan_once fuel s = Json.Scanned v r →
            (String.length r ≤ String.length s)%nat)
  ∧ (∀ s acc v r, Json.scan_members fuel s acc = Json.Scanned v r →
                  (String.length r ≤ String.length s)%nat)
  ∧ (∀ s acc v r, Json.scan_items fuel s acc = Json.Scanned v r →
                  (String.length r ≤ String.length s)%nat).
Proof.
  induction fuel as [|fuel (IHonce & IHmembers & IHitems)]; [done|].
  split_and!.
  - intros s v r. cbn [Json.scan_once].
    destruct (Py.startswith s (String Json.dquote "")).
    { destruct (Json.scan_string _ _ _) as [k r'| |] eqn:Hk; [|done..].
      intros [= _ <-]. pose proof (drop_length 1 s).
      apply scan_string_rest in Hk. lia. }
    destruct (Py.startswith s "{").
    { pose proof (drop_length 1 s). pose proof (skip_ws_length (Py.drop 1 s)).
      destruct (Py.startswith _ "}").
      - intros [= _ <-]. pose proof (drop_length 1 (Json.skip_ws (Py.drop 1 s))). lia.
      - intros Hm%IHmembers. lia. }
    destruct (Py.startswith s "[").
    { pose proof (drop_length 1 s). pose proof (skip_ws_length (Py.drop 1 s)).
      destruct (Py.startswith _ "]").
      - intros [= _ <-]. pose proof (drop_length 1 (Json.skip_ws (Py.drop 1 s))). lia.
      - intros Hm%IHitems. lia. }
    destruct (Json.literal "null" s) eqn:H1;
      [intros [= _ <-]; by eapply literal_length|].
    destruct (Json.literal "true" s) eqn:H2;
      [intros [= _ <-]; by eapply literal_length|].
    destruct (Json.literal "false" s) eqn:H3;
      [intros [= _ <-]; by eapply literal_length|].
    destruct (Json.literal "NaN" s) eqn:H4;
      [intros [= _ <-]; by eapply literal_length|].
    destruct (Json.literal "Infinity" s) eqn:H5;
      [intros [= _ <-]; by eapply literal_length|].
    destruct (Json.literal "-Infinity" s) eqn:H6;
      [intros [= _ <-]; by eapply literal_length|].
    apply scan_atom_length.
  - intros s acc v r. cbn [Json.scan_members].
    destruct (Py.startswith s (String Json.dquote "")); [|done].
    destruct (Json.scan_string _ _ _) as [k r1| |] eqn:Hk; [|done..].
    apply scan_string_rest in Hk.
    pose proof (drop_length 1 s). pose proof (skip_ws_length r1).
    cbv zeta. destruct (Py.startswith (Json.skip_ws r1) ":"); [|done].
    pose proof (drop_length 1 (Json.skip_ws r1)).
    pose proof (skip_ws_length (Py.drop 1 (Json.skip_ws r1))).
    destruct (Json.scan_once _ _) as [v' r2| |] eqn:Hv; [|done..].
    apply IHonce in Hv. pose proof (skip_ws_length r2).
    pose proof (drop_length 1 (Json.skip_ws r2)).
    destruct (Py.startswith (Json.skip_ws r2) "}"); [intros [= _ <-]; lia|].
    destruct (Py.startswith (Json.skip_ws r2) ","); [|done].
    intros Hm%IHmembers. pose proof (skip_ws_length (Py.drop 1 (Json.skip_ws r2))). lia.
  - intros s acc v r. cbn [Json.scan_items].
    destruct (Json.scan_once _ _) as [v' r1| |] eqn:Hv; [|done..].
    apply IHonce in Hv. pose proof (skip_ws_length r1).
    pose proof (drop_length 1 (Json.skip_ws r1)). cbv zeta.
    destruct (Py.startswith (Json.skip_ws r1) "]"); [intros [= _ <-]; lia|].
    destruct (Py.startswith (Json.skip_ws r1) ","); [|done].
    intros Hm%IHitems. pose proof (skip_ws_length (Py.drop 1 (Json.skip_ws r1))). lia.
Qed.

(** With twice the length of the text in steps, and one more, no scanner
    runs out of them. *)
Lemma scan_steps (fuel : nat) :
  (∀ s, (2 * String.length s < fuel)%nat → Json.scan_once fuel s ≠ Json.Exhausted)
  ∧ (∀ s acc, (2 * String.length s + 1 < fuel)%nat →
              Json.scan_members fuel s acc ≠ Json.Exhausted)
  ∧ (∀ s acc, (2 * String.length s + 1 < fuel)%nat →
              Json.scan_items fuel s acc ≠ Json.Exhausted).
Proof.
  induction fuel as [|fuel (IHonce & IHmembers & IHitems)]; [split_and!; intros; lia|].
  destruct (scan_rest fuel) as (Ronce & _ & _).
  split_and!.
  - intros s Hlen. cbn [Json.scan_once].
    destruct (Py.startswith s (String Json.dquote "")) eqn:Hq.
    { destruct (Json.scan_string _ _ _) as [k r'| |] eqn:Hk; [done..|].
      by apply scan_string_enough in Hk. }
    destruct (Py.startswith s "{") eqn:Hb.
    { apply drop_one_after in Hb; [|done].
      pose proof (skip_ws_length (Py.drop 1 s)). cbv zeta.
      destruct (Py.startswith _ "}"); [done|]. apply IHmembers. lia. }
    destruct (Py.startswith s "[") eqn:Ha.
    { apply drop_one_after in Ha; [|done].
      pose proof (skip_ws_length (Py.drop 1 s)). cbv zeta.
      destruct (Py.startswith _ "]"); [done|]. apply IHitems. lia. }
    destruct (Json.literal "null" s); [done|].
    destruct (Json.literal "true" s); [done|].
    destruct (Json.literal "false" s); [done|].
    destruct (Json.literal "NaN" s); [done|].
    destruct (Json.literal "Infinity" s); [done|].
    destruct (Json.literal "-Infinity" s); [done|].
    apply scan_atom_steps.
  - intros s acc Hlen. cbn [Json.scan_members].
    destruct (Py.startswith s (String Json.dquote "")) eqn:Hq; [|done].
    apply drop_one_after in Hq; [|done].
    destruct (Json.scan_string _ _ _) as [k r1| |] eqn:Hk; [|done|].
    2: { by apply scan_string_enough in Hk. }
    apply scan_string_rest in Hk.
    pose proof (skip_ws_length r1). cbv zeta.
    destruct (Py.startswith (Json.skip_ws r1) ":") eqn:Hc; [|done].
    apply drop_one_after in Hc; [|done].
    pose proof (skip_ws_length (Py.drop 1 (Json.skip_ws r1))).
    destruct (Json.scan_once _ _) as [v' r2| |] eqn:Hv; [|done|].
    2: { apply IHonce in Hv; [done|lia]. }
    apply Ronce in Hv. pose proof (skip_ws_length r2).
    destruct (Py.startswith (Json.skip_ws r2) "}"); [done|].
    destruct (Py.startswith (Json.skip_ws r2) ",") eqn:Hm; [|done].
    apply drop_one_after in Hm; [|done].
    pose proof (skip_ws_length (Py.drop 1 (Json.skip_ws r2))).
    apply IHmembers. lia.
  - intros s acc Hlen. cbn [Json.scan_items].
    destruct (Json.scan_once _ _) as [v' r1| |] eqn:Hv; [|done|].
    2: { apply IHonce in Hv; [done|lia]. }
    apply Ronce in Hv. pose proof (skip_ws_length r1). cbv zeta.
    destruct (Py.startswith (Json.skip_ws r1) "]"); [done|].
    destruct (Py.startswith (Json.skip_ws r1) ",") eqn:Hm; [|done].
    apply drop_one_after in Hm; [|done].
    pose proof (skip_ws_length (Py.drop 1 (Json.skip_ws r1))).
    apply IHitems. lia.
Qed.

(** [loads] yields a value or a syntax error. *)
Lemma loads_decodes_or_rejects (s : string) : Json.loads s ≠ Json.OtherError.
Proof.
  unfold Json.loads.
  destruct (Json.scan_once _ _) as [v r| |] eqn:Hv.
  - by destruct (Json.skip_ws r).
  - done.
  - destruct (scan_steps (S (2 * String.length s))) as (Honce & _).
    apply Honce in Hv; [done|]. pose proof (skip_ws_length s). lia.
Qed.

(** ** The response parser *)

(** The loop of the fallback parser keeps a question that is empty or ends
    with a question mark. *)
Lemma fallback_line_question (line question reason : string) :
  question = "" ∨ Py.endswith question "?" = true →
  (Ai.fallback_line (question, reason) line).1 = ""
  ∨ Py.endswith (Ai.fallback_line (question, reason) line).1 "?" = true.
Proof.
  intros Hq. unfold Ai.fallback_line.
  destruct (Py.endswith (Py.strip line) "?") eqn:Hend; [by right|].
  destruct (_ && _); [destruct (negb _)|]; done.
Qed.

Lemma fallback_lines_question (lines : list string) (state : string * string) :
  state.1 = "" ∨ Py.endswith state.1 "?" = true →
  (fold_left Ai.fallback_line lines state).1 = ""
  ∨ Py.endswith (fold_left Ai.fallback_line lines state).1 "?" = true.
Proof.
  revert state.
  induction lines as [|line lines IH]; intros [question reason] Hq; [done|].
  cbn [fold_left]. apply IH. by apply fallback_line_question.
Qed.

Lemma fallback_well_formed (response_text : string) :
  well_formed (Ai._fallback_parse_response response_text).
Proof.
  unfold Ai._fallback_parse_response.
  pose proof (fallback_lines_question
                (Py.split "010" (Py.strip response_text)) ("", "") (or_introl eq_refl)) as Hq.
  destruct (fold_left _ _ _) as [question reason]. simpl in Hq.
  destruct (Py.truthy question && Py.truthy reason) eqn:Ht; [|by left].
  right. exists question, reason. split; [done|].
  intros Hne. by destruct Hq.
Qed.

Lemma parse_well_formed (loads : string → Json.outcome) (response_text : string) :
  well_formed (Ai.parse_structured_response_with loads response_text).
Proof.
  unfold Ai.parse_structured_response_with.
  destruct (loads _) as [v| |]; [|apply fallback_well_formed|by left].
  destruct v as [| | | | |parsed]; try by left.
  destruct (Json.get "question" parsed) as [q|]; [|by left].
  destruct (Json.get "reason" parsed) as [r|]; [|by destruct q; left].
  destruct q as [| | |q| |]; try by left.
  destruct r as [| | |r| |]; try by left.
  right. eexists _, _. split; [done|].
  destruct (Py.truthy (Py.strip q)) eqn:Ht; simpl.
  - destruct (Py.endswith (Py.strip q) "?") eqn:He; simpl; intros _; [done|].
    apply endswith_app.
  - intros Hne. apply truthy_nonempty in Hne. congruence.
Qed.

(** C7. For every decoder, every state of the client and every call, the
    result of [generate_followup_questions] is the empty dict or a dict of
    a question and a reason whose question, unless empty, ends with a
    question mark.  A failure yields the empty dict, and never an
    exception: a default that cannot be read (configuration), a remote call
    that raises or answers with no text (network), and a text that the
    decoder fails on with an exception other than a syntax error, that
    decodes to a value lacking one of the two fields, or that neither the
    decoder nor the line scan can read (parse). *)
Theorem generation_result_well_formed
    (loads : string → Json.outcome) (g : Ai.Gemini)
    (prompt_context question answer : string)
    (model : option string) (temperature : option Qc) :
  let request := Ai.build_request (Ai.service g) prompt_context question answer model temperature in
  let r := (Ai.generate_followup_questions_with loads g
              prompt_context question answer model temperature).1 in
  well_formed r
  ∧ (request = None → r = ∅)
  ∧ (∀ req, request = Some req → (Ai.generate_content g req).1 = Ai.ApiRaise → r = ∅)
  ∧ (∀ req, request = Some req → (Ai.generate_content g req).1 = Ai.ApiText "" → r = ∅)
  ∧ (∀ req text, request = Some req → (Ai.generate_content g req).1 = Ai.ApiText text →
       text ≠ "" →
       r = Ai.parse_structured_response_with loads text
       ∧ (loads (Ai.cleaned text) = Json.OtherError → r = ∅)
       ∧ (∀ v, loads (Ai.cleaned text) = Json.Decoded v →
            (∀ parsed q s, v = Json.JObject parsed →
               Json.get "question" parsed = Some (Json.JString q) →
               Json.get "reason" parsed = Some (Json.JString s) → False) →
            r = ∅)
       ∧ (loads (Ai.cleaned text) = Json.DecodeError →
            r = Ai._fallback_parse_response text)).
Proof.
  intros request r. subst request r.
  unfold Ai.generate_followup_questions_with.
  destruct (Ai.build_request _ _ _ _ _ _) as [req|]; simpl.
  2: { split_and!; try done. by left. }
  destruct (Ai.generate_content g req) as [[text|] g'] eqn:Hcall; simpl.
  - split_and!.
    + destruct (Py.truthy text); [apply parse_well_formed|by left].
    + done.
    + intros ? [= <-]. rewrite Hcall. done.
    + intros ? [= <-]. rewrite Hcall. simpl. by intros [= ->].
    + intros req' text' [= <-]. rewrite Hcall. simpl. intros [= <-] Hne.
      apply truthy_nonempty in Hne. rewrite Hne. simpl.
      unfold Ai.parse_structured_response_with.
      split_and!.
      * done.
      * by intros ->.
      * intros v -> Hno.
        destruct v as [| | | | |parsed]; try done.
        destruct (Json.get "question" parsed) as [q|] eqn:Hq; [|done].
        destruct (Json.get "reason" parsed) as [s|] eqn:Hs; [|by destruct q].
        destruct q as [| | |q| |]; try done.
        destruct s as [| | |s| |]; try done.
        by destruct (Hno parsed q s).
      * by intros ->.
  - split_and!; try done.
    + by left.
    + intros ? ? [= <-]. rewrite Hcall. done.
Qed.

(** C6, as stated, fails: the response that opens with a few words before
    its code fence does not parse to the question and the reason it
    carries. *)
Lemma chatty_reply_not_parsed :
  Ai._parse_structured_response chatty_reply
  ≠ {[ "question" := "What next?"; "reason" := "clarify" ]}.
Proof.
  assert (Ai._parse_structured_response chatty_reply = ∅) as -> by (by vm_compute).
  intros Heq. apply (f_equal (fun m : Ai.result => m !! "question")) in Heq.
  vm_compute in Heq. discriminate.
Qed.

(** C6, amended.  The fence is cut only where the stripped text starts
    with it and where it ends with it.  Of the response with the preamble
    the closing fence alone is cut; the decoder rejects what is left, no
    line of the response ends with a question mark, and the result is the
    empty dict.  The same response without the preamble parses to the
    question and the reason. *)
Theorem fence_cut_at_both_ends_only :
  Ai.cleaned chatty_reply
  = "Sure! ```json {" +:+ Ai.quoted "question" +:+ ": " +:+ Ai.quoted "What next?" +:+ ", "
    +:+ Ai.quoted "reason" +:+ ": " +:+ Ai.quoted "clarify" +:+ "}"
  ∧ Json.loads (Ai.cleaned chatty_reply) = Json.DecodeError
  ∧ Ai._parse_structured_response chatty_reply = ∅
  ∧ Ai.cleaned fenced_reply
    = "{" +:+ Ai.quoted "question" +:+ ": " +:+ Ai.quoted "What next?" +:+ ", "
      +:+ Ai.quoted "reason" +:+ ": " +:+ Ai.quoted "clarify" +:+ "}"
  ∧ Ai._parse_structured_response fenced_reply
    = {[ "question" := "What next?"; "reason" := "clarify" ]}.
Proof. split_and!; by vm_compute. Qed.

(** *** A fenced response *)

Lemma lstrip_unfold (c1 : ascii) (s1 : string) :
  Py.lstrip (String c1 s1)
  = if Py.space1 c1 then Py.lstrip s1 else
    match s1 with
    | String c2 s2 =>
        if Py.space2 c1 c2 then Py.lstrip s2 else
        match s2 with
        | String c3 s3 => if Py.space3 c1 c2 c3 then Py.lstrip s3 else String c1 s1
        | "" => String c1 s1
        end
    | "" => String c1 s1
    end.
Proof. done. Qed.

Lemma append_cons (c : ascii) (s p : string) : String c s +:+ p = String c (s +:+ p).
Proof. done. Qed.

Lemma space2_backtick (c : ascii) : Py.space2 c "`" = false.
Proof. unfold Py.space2. apply andb_false_r. Qed.

Lemma space3_backtick (c1 c2 : ascii) : Py.space3 c1 c2 "`" = false.
Proof.
  unfold Py.space3. change (Py.code "`") with 96%N. cbv zeta.
  destruct (Py.code c1 =? 225)%N, (Py.code c1 =? 226)%N, (Py.code c1 =? 227)%N,
    (Py.code c2 =? 154)%N, (Py.code c2 =? 128)%N, (Py.code c2 =? 129)%N; by vm_compute.
Qed.

Lemma lstrip_fence_end (n : nat) (s : string) :
  (String.length s ≤ n)%nat → Py.lstrip (s +:+ "```") ≠ "".
Proof.
  revert s. induction n as [|n IH]; intros s Hn.
  - destruct s; [done|simpl in Hn; lia].
  - destruct s as [|c1 s1]; [done|]. simpl in Hn. rewrite append_cons, lstrip_unfold.
    destruct (Py.space1 c1); [apply (IH s1); lia|].
    destruct s1 as [|c2 s2].
    { change ("" +:+ "```") with "```". cbv beta iota.
      by rewrite space2_backtick, space3_backtick. }
    simpl in Hn. rewrite append_cons.
    destruct (Py.space2 c1 c2); [apply (IH s2); lia|].
    destruct s2 as [|c3 s3].
    { change ("" +:+ "```") with "```". cbv beta iota. by rewrite space3_backtick. }
    simpl in Hn. rewrite append_cons.
    destruct (Py.space3 c1 c2 c3); [apply (IH s3); lia|done].
Qed.

Lemma rstrip_fence_end (s : string) : Py.rstrip (s +:+ "```") = s +:+ "```".
Proof.
  induction s as [|c s IH]; [done|].
  rewrite append_cons. cbn [Py.rstrip]. unfold Py.blank.
  pose proof (lstrip_fence_end (S (String.length s)) (String c s) (le_n _)) as Hne.
  rewrite append_cons in Hne. destruct (Py.lstrip (String c (s +:+ "```"))); [done|].
  by rewrite IH.
Qed.

Lemma take_app_length (s p : string) : Py.take (String.length s) (s +:+ p) = s.
Proof. induction s as [|c s IH]; [by destruct p|]. simpl. by rewrite IH. Qed.

Lemma length_append (s p : string) :
  String.length (s +:+ p) = (String.length s + String.length p)%nat.
Proof. induction s as [|c s IH]; [done|]. simpl. by rewrite IH. Qed.

Lemma drop_end_app (s p : string) : Py.drop_end (String.length p) (s +:+ p) = s.
Proof.
  unfold Py.drop_end. rewrite length_append.
  replace (String.length s + String.length p - String.length p)%nat
    with (String.length s) by lia.
  apply take_app_length.
Qed.

Lemma startswith_app (p s : string) : Py.startswith (p +:+ s) p = true.
Proof.
  unfold Py.startswith. induction p as [|a p IH]; [by destruct s|].
  rewrite append_cons. cbn [String.prefix]. by destruct (ascii_dec a a).
Qed.


(** *** The fallback parser, line by line *)

Lemma question_line_nonempty (line : string) : question_line line → line ≠ "".
Proof. by intros Hq ->. Qed.

Lemma fallback_lines (lines : list string) (question reason : string) :
  fold_left Ai.fallback_line lines (question, reason)
  = (default question (last (filter question_line (Py.strip <$> lines))),
     if Py.truthy reason then reason
     else default "" (head (filter reason_line (Py.strip <$> lines)))).
Proof.
  revert question reason. induction lines as [|line lines IH]; intros question reason.
  - simpl. by destruct reason.
  - cbn [fold_left]. rewrite fmap_cons. unfold Ai.fallback_line at 2.
    destruct (Py.endswith (Py.strip line) "?") eqn:Hq.
    + rewrite IH. rewrite filter_cons_True by done.
      rewrite (filter_cons_False reason_line) by (intros (? & _); congruence).
      f_equal. rewrite last_cons. by destruct (last _).
    + rewrite (filter_cons_False question_line) by (unfold question_line; congruence).
      destruct (Py.truthy (Py.strip line) && negb (Py.startswith (Py.strip line) "{")
                && negb (Py.startswith (Py.strip line) "}")) eqn:Hr.
      * apply andb_prop in Hr as [[Ht Ho]%andb_prop Hc].
        apply negb_true_iff in Ho, Hc. apply truthy_nonempty in Ht.
        rewrite (filter_cons_True reason_line) by done.
        destruct (Py.truthy reason) eqn:Hreason; cbn [negb]; rewrite IH; f_equal.
        -- by rewrite Hreason.
        -- by rewrite (proj2 (truthy_nonempty _) Ht).
      * rewrite IH. f_equal.
        rewrite (filter_cons_False reason_line); [done|].
        intros (_ & Ht & Ho & Hc). apply truthy_nonempty in Ht.
        by rewrite Ht, Ho, Hc in Hr.
Qed.


(** ** The request of the runner *)

(** With a model name that is not empty and a temperature that is not
    zero, the request carries the context as system instruction, the
    question and the answer in its content, and the model and temperature
    it was given. *)
Lemma request_carries_settings (self : Ai.AIService)
    (prompt_context question answer model : string) (temperature : Qc) :
  model ≠ "" → temperature ≠ 0%Qc →
  Ai.build_request self prompt_context question answer (Some model) (Some temperature)
  = Some {| Ai.model_name := model;
            Ai.system_instruction := prompt_context;
            Ai.temperature := temperature;
            Ai.max_output_tokens := 1000;
            Ai.content_prompt := Ai.make_content_prompt question answer |}.
Proof.
  intros Hm Ht. unfold Ai.build_request, Ai.model_or, Ai.temperature_or.
  apply truthy_nonempty in Hm. rewrite Hm.
  by rewrite bool_decide_eq_false_2.
Qed.

(** A temperature of zero counts as no temperature: the request carries
    the default of the service. *)
Lemma request_at_zero_temperature (self : Ai.AIService)
    (prompt_context question answer model : string) :
  model ≠ "" → Ai.api_key_present self = true →
  Ai.build_request self prompt_context question answer (Some model) (Some 0%Qc)
  = Some {| Ai.model_name := model;
            Ai.system_instruction := prompt_context;
            Ai.temperature := Ai.default_temperature self;
            Ai.max_output_tokens := 1000;
            Ai.content_prompt := Ai.make_content_prompt question answer |}.
Proof.
  intros Hm Hk. unfold Ai.build_request, Ai.model_or, Ai.temperature_or.
  apply truthy_nonempty in Hm. rewrite Hm.
  rewrite bool_decide_eq_true_2 by done.
  unfold Ai.self_default_temperature. by rewrite Hk.
Qed.

(** C5, at a prompt whose stored temperature is 0.0: the runner sends one
    request for the one selected case; it carries the content of the
    prompt, its model, the question and the answer of the case, and the
    temperature 0.7 of the service where the prompt says 0. *)
Theorem zero_temperature_not_sent :
  let prompt := demo_prompt 0%Qc in
  let db := demo_selected 7 demo_db in
  let run := App.run_experiment db (demo_client [reply "Why?" "to learn"; Ai.ApiRaise; Ai.ApiRaise])
               (demo_experiment 7) prompt in
  Prompt.temperature prompt = 0%Qc
  ∧ (Ai.temperature <$> Ai.sent (App.ai_after run))
    = [Q2Qc 0.7%Q; Q2Qc 0.7%Q; Q2Qc 0.7%Q]
  ∧ (Ai.model_name <$> Ai.sent (App.ai_after run))
    = [Prompt.model prompt; Prompt.model prompt; Prompt.model prompt]
  ∧ (Ai.system_instruction <$> Ai.sent (App.ai_after run))
    = [Prompt.content prompt; Prompt.content prompt; Prompt.content prompt].
Proof. split_and!; by vm_compute. Qed.

(** ** Lists *)

Lemma filter_none {A} (P : A → Prop) `{!∀ x, Decision (P x)} (l : list A) :
  (∀ x, x ∈ l → ¬ P x) → filter P l = [].
Proof.
  induction l as [|a l IH]; intros Hno; [done|].
  rewrite filter_cons_False by (apply Hno; left).
  apply IH. intros x Hx. apply Hno. by right.
Qed.

Lemma NoDup_fmap_eq {A B} (f : A → B) (l : list A) (x y : A) :
  NoDup (f <$> l) → x ∈ l → y ∈ l → f x = f y → x = y.
Proof.
  induction l as [|a l IH]; [by intros _ ?%elem_of_nil|].
  rewrite fmap_cons. intros [Ha Hl]%NoDup_cons [->|Hx]%elem_of_cons [->|Hy]%elem_of_cons Hf.
  - done.
  - destruct Ha. rewrite Hf. by apply list_elem_of_fmap_2.
  - destruct Ha. rewrite <- Hf. by apply list_elem_of_fmap_2.
  - by apply IH.
Qed.

(** ** The result aggregation *)

Lemma first_seen_snoc (seen ids : list Z) (x : Z) :
  first_seen seen (ids ++ [x])
  = first_seen seen ids ++ (if bool_decide (x ∈ seen ++ ids) then [] else [x]).
Proof.
  revert seen. induction ids as [|y ids IH]; intros seen; simpl.
  - rewrite app_nil_r. by destruct (bool_decide (x ∈ seen)).
  - destruct (bool_decide (y ∈ seen)) eqn:Hy.
    + rewrite IH. apply bool_decide_eq_true in Hy.
      by rewrite (bool_decide_ext (x ∈ seen ++ y :: ids) (x ∈ seen ++ ids)) by set_solver.
    + rewrite IH. simpl.
      by rewrite (bool_decide_ext (x ∈ seen ++ y :: ids) (x ∈ (y :: seen) ++ ids)) by set_solver.
Qed.

Lemma elem_of_first_seen (seen ids : list Z) (x : Z) :
  x ∈ first_seen seen ids ↔ x ∈ ids ∧ x ∉ seen.
Proof.
  revert seen. induction ids as [|y ids IH]; intros seen; simpl.
  - set_solver.
  - case_bool_decide as Hy.
    + rewrite IH, elem_of_cons. naive_solver.
    + rewrite !elem_of_cons, IH, elem_of_cons.
      destruct (decide (x = y)); naive_solver.
Qed.

Lemma NoDup_first_seen (seen ids : list Z) : NoDup (first_seen seen ids).
Proof.
  revert seen. induction ids as [|y ids IH]; intros seen; simpl.
  - constructor.
  - case_bool_decide; [done|]. constructor; [|done].
    rewrite elem_of_first_seen. set_solver.
Qed.

Lemma length_first_seen (ids : list Z) :
  length (first_seen [] ids) = length (remove_dups ids).
Proof.
  apply Permutation_length, NoDup_Permutation.
  - apply NoDup_first_seen.
  - apply NoDup_remove_dups.
  - intros x. rewrite elem_of_first_seen, elem_of_remove_dups. set_solver.
Qed.

Lemma add_case_keys (groups : list (Z * App.UserData)) (c : CaseResult.t) :
  (App.add_case groups c).*1
  = groups.*1 ++ (if bool_decide (user_id_of c ∈ groups.*1) then [] else [user_id_of c]).
Proof.
  unfold App.add_case. fold (user_id_of c).
  rewrite <- list_fmap_compose.
  rewrite (list_fmap_ext _ fst) by (by intros i [k d] _; simpl; case_bool_decide).
  case_bool_decide; [by rewrite app_nil_r|]. by rewrite fmap_app.
Qed.

Lemma group_by_user_snoc (case_results : list CaseResult.t) (c : CaseResult.t) :
  App.group_by_user (case_results ++ [c]) = App.add_case (App.group_by_user case_results) c.
Proof. apply foldl_snoc. Qed.

Lemma group_keys (case_results : list CaseResult.t) :
  (App.group_by_user case_results).*1 = first_seen [] (user_id_of <$> case_results).
Proof.
  induction case_results as [|c case_results IH] using rev_ind; [done|].
  rewrite group_by_user_snoc, add_case_keys, IH, fmap_app. simpl.
  rewrite first_seen_snoc. simpl.
  erewrite bool_decide_ext; [done|].
  rewrite elem_of_first_seen. set_solver.
Qed.

Lemma group_cases (case_results : list CaseResult.t) (k : Z) (data : App.UserData) :
  (k, data) ∈ App.group_by_user case_results →
  App.cases data = cases_of k case_results
  ∧ CaseResult.user <$> head (cases_of k case_results) = Some (App.user data).
Proof.
  revert k data.
  induction case_results as [|c case_results IH] using rev_ind; intros k data.
  - by intros ?%elem_of_nil.
  - rewrite group_by_user_snoc. unfold App.add_case. fold (user_id_of c).
    unfold cases_of. rewrite filter_app.
    intros ([k' d'] & Heq & Hin)%list_elem_of_fmap. simpl in Heq.
    assert (user_id_of c ∈ (App.group_by_user case_results).*1
            ↔ user_id_of c ∈ user_id_of <$> case_results) as Hkeys.
    { rewrite group_keys, elem_of_first_seen. set_solver. }
    case_bool_decide as Hseen.
    + apply IH in Hin as [Hc Hu]. unfold cases_of in Hc, Hu.
      case_bool_decide as Hk; simplify_eq; simpl.
      * rewrite filter_cons_True, filter_nil by done. split; [by rewrite Hc|].
        destruct (filter _ case_results); [done|]. done.
      * rewrite filter_cons_False, filter_nil, app_nil_r by done. done.
    + apply elem_of_app in Hin as [Hin|Hin].
      * pose proof Hin as Hk'. apply (list_elem_of_fmap_2 fst) in Hk'. simpl in Hk'.
        apply IH in Hin as [Hc Hu]. unfold cases_of in Hc, Hu.
        case_bool_decide as Hk; simplify_eq; simpl; [done|].
        rewrite filter_cons_False, filter_nil, app_nil_r by done. done.
      * apply list_elem_of_singleton in Hin. simplify_eq.
        rewrite bool_decide_eq_true_2 in Heq by done. simplify_eq. simpl.
        rewrite filter_cons_True, filter_nil by done.
        rewrite filter_none; [done|].
        intros x Hx Hux. apply Hseen, Hkeys. rewrite <- Hux.
        by apply list_elem_of_fmap_2.
Qed.

Lemma size_distinct (ids : list Z) :
  size (list_to_set ids : gset Z) = length (remove_dups ids).
Proof.
  rewrite <- (size_list_to_set (C := gset Z) (remove_dups ids)) by apply NoDup_remove_dups.
  f_equal. apply set_eq. intros x.
  by rewrite !elem_of_list_to_set, elem_of_remove_dups.
Qed.

Lemma sum_of_lengths {A} (ls : list (list A)) :
  sum_list (length <$> ls) = length (concat ls).
Proof.
  induction ls as [|l ls IH]; [done|].
  cbn [fmap list_fmap sum_list sum_list_with concat]. rewrite length_app. by f_equal.
Qed.

(** C9. The groups come in the order in which their users are first met;
    the group of a user holds that user's cases in the order of the input,
    under the user record of the first of them.  The summary counts the
    distinct user identifiers, the distinct question identifiers, the
    cases, and the follow-ups of all the cases together.  With no case
    there is no group and every count is zero. *)
Theorem aggregation_groups_and_counts (case_results : list CaseResult.t) :
  let groups := (App.aggregate case_results).1 in
  let counts := (App.aggregate case_results).2 in
  groups.*1 = first_seen [] (user_id_of <$> case_results)
  ∧ (∀ k data, (k, data) ∈ groups →
       App.cases data = cases_of k case_results
       ∧ CaseResult.user <$> head (cases_of k case_results) = Some (App.user data))
  ∧ App.total_users counts = length (remove_dups (user_id_of <$> case_results))
  ∧ App.total_questions counts = length (remove_dups (question_id_of <$> case_results))
  ∧ App.total_cases counts = length case_results
  ∧ App.total_followups counts
    = length (concat (CaseResult.followup_questions <$> case_results))
  ∧ App.aggregate []
    = ([], {| App.total_users := 0; App.total_questions := 0;
              App.total_cases := 0; App.total_followups := 0 |}).
Proof.
  simpl. split_and!.
  - apply group_keys.
  - apply group_cases.
  - rewrite <- length_first_seen, <- group_keys. by rewrite length_fmap.
  - apply size_distinct.
  - done.
  - rewrite <- sum_of_lengths. by rewrite <- list_fmap_compose.
  - done.
Qed.

Lemma grouped_cases_app (groups1 groups2 : list (Z * App.UserData)) :
  grouped_cases (groups1 ++ groups2) = grouped_cases groups1 ++ grouped_cases groups2.
Proof. unfold grouped_cases. by rewrite !fmap_app, concat_app. Qed.

(** Appending a case to the group of a user, in groups with one group
    per user, adds that case and nothing else. *)
Lemma append_to_group (groups : list (Z * App.UserData)) (k : Z) (c : CaseResult.t) :
  NoDup groups.*1 →
  grouped_cases
    ((fun entry : Z * App.UserData =>
        if bool_decide (entry.1 = k)
        then (entry.1, {| App.user := App.user entry.2;
                          App.cases := App.cases entry.2 ++ [c] |})
        else entry) <$> groups)
  ≡ₚ grouped_cases groups ++ (if bool_decide (k ∈ groups.*1) then [c] else []).
Proof.
  induction groups as [|[k' d] groups IH]; [done|].
  rewrite fmap_cons. intros [Hk Hnd]%NoDup_cons. specialize (IH Hnd).
  rewrite fmap_cons. unfold grouped_cases in *. rewrite !fmap_cons. cbn [concat fst snd].
  rewrite IH. destruct (decide (k' = k)) as [->|Hne].
  - rewrite (bool_decide_eq_true_2 (k = k)) by done.
    rewrite (bool_decide_eq_true_2 (k ∈ k :: groups.*1)) by left.
    rewrite bool_decide_eq_false_2 by done. cbn [App.cases snd]. rewrite app_nil_r.
    rewrite <- !(assoc (++)). f_equiv. apply Permutation_app_comm.
  - rewrite (bool_decide_eq_false_2 (k' = k)) by done. cbn [snd].
    rewrite <- (assoc (++)). do 2 f_equiv.
    rewrite (bool_decide_ext (k ∈ k' :: groups.*1) (k ∈ groups.*1)); [done|].
    rewrite elem_of_cons. naive_solver.
Qed.

Lemma add_case_grouped (groups : list (Z * App.UserData)) (c : CaseResult.t) :
  NoDup groups.*1 → grouped_cases (App.add_case groups c) ≡ₚ grouped_cases groups ++ [c].
Proof.
  intros Hnd. unfold App.add_case. fold (user_id_of c).
  case_bool_decide as Hin.
  - rewrite append_to_group by done. by rewrite bool_decide_eq_true_2.
  - rewrite append_to_group.
    + rewrite grouped_cases_app, fmap_app, bool_decide_eq_true_2 by set_solver.
      unfold grouped_cases at 2. simpl. by rewrite app_nil_r.
    + rewrite fmap_app. apply NoDup_app. split_and!; [done| |apply NoDup_singleton].
      intros x Hx ->%list_elem_of_singleton. done.
Qed.


(** ** The joined set of selected cases *)

Lemma join_case_case (db : Db.Store) (c : ExperimentCase.t) (cr : CaseResult.t) :
  Db.join_case db c = Some cr ↔
  CaseResult.case cr = c
  ∧ Db.get_question_by_id db (ExperimentCase.question_id c) = Some (CaseResult.question cr)
  ∧ Db.get_user_by_id db (ExperimentCase.user_id c) = Some (CaseResult.user cr)
  ∧ Db.get_answer_by_question_and_user db
      (ExperimentCase.question_id c) (ExperimentCase.user_id c) = Some (CaseResult.answer cr)
  ∧ CaseResult.followup_questions cr
    = Db.get_followups_by_answer db (Answer.id (CaseResult.answer cr)).
Proof.
  unfold Db.join_case. split.
  - destruct (Db.get_question_by_id _ _); [|done].
    destruct (Db.get_user_by_id _ _); [|done].
    destruct (Db.get_answer_by_question_and_user _ _ _); [|done].
    by intros [= <-].
  - intros (<- & -> & -> & -> & Hf). destruct cr. simpl in *. by rewrite Hf.
Qed.

Lemma omap_cases_sublist (db : Db.Store) (cases : list ExperimentCase.t) :
  CaseResult.case <$> omap (Db.join_case db) cases
  = filter (fun c => is_Some (Db.join_case db c)) cases.
Proof.
  induction cases as [|c cases IH]; [done|]. cbn [omap list_omap].
  destruct (Db.join_case db c) as [cr|] eqn:Hj.
  - rewrite filter_cons_True by (by rewrite Hj). rewrite fmap_cons.
    fold (omap (Db.join_case db) cases). rewrite IH.
    by apply join_case_case in Hj as [-> _].
  - fold (omap (Db.join_case db) cases). rewrite IH.
    rewrite filter_cons_False; [done|]. rewrite Hj. by intros [? ?].
Qed.

Lemma joined_case_rows (db : Db.Store) (experiment_id : Z) (cr : CaseResult.t) :
  cr ∈ Db.get_selected_experiment_cases_with_data db experiment_id ↔
  CaseResult.case cr ∈ Db.experiment_cases db
  ∧ ExperimentCase.experiment_id (CaseResult.case cr) = experiment_id
  ∧ ExperimentCase.is_selected (CaseResult.case cr) = true
  ∧ Db.get_question_by_id db (ExperimentCase.question_id (CaseResult.case cr))
    = Some (CaseResult.question cr)
  ∧ Db.get_user_by_id db (ExperimentCase.user_id (CaseResult.case cr))
    = Some (CaseResult.user cr)
  ∧ Db.get_answer_by_question_and_user db
      (ExperimentCase.question_id (CaseResult.case cr))
      (ExperimentCase.user_id (CaseResult.case cr))
    = Some (CaseResult.answer cr)
  ∧ CaseResult.followup_questions cr
    = Db.get_followups_by_answer db (Answer.id (CaseResult.answer cr)).
Proof.
  unfold Db.get_selected_experiment_cases_with_data.
  rewrite list_elem_of_omap. unfold Db.selected_cases. split.
  - intros (c & [[He Hs] Hin]%list_elem_of_filter & Hj).
    apply join_case_case in Hj as (-> & ? & ? & ? & ?). done.
  - intros (Hin & He & Hs & Hq & Hu & Ha & Hf).
    exists (CaseResult.case cr). split.
    + apply list_elem_of_filter. done.
    + by apply join_case_case.
Qed.

(** C4, on a failing input.  Experiment 7 has a selected case on an
    answer whose text is empty.  The grid takes the pair to be
    unanswered and offers no box for it, and the joined set holds the
    case all the same, where the claim has it left out: the join passes
    over a case whose answer row is missing and does not look at the
    text. *)
Theorem textless_answer_is_joined :
  (App.case_selection ∅ (demo_prompt 1) (demo_experiment 7) textless_db).2
  = [App.NoAnswer 1 1]
  ∧ ∃ cr, cr ∈ Db.get_selected_experiment_cases_with_data textless_db 7
          ∧ ExperimentCase.is_selected (CaseResult.case cr) = true
          ∧ Answer.answer_text (CaseResult.answer cr) = "".
Proof.
  split; [reflexivity|].
  assert (Db.get_selected_experiment_cases_with_data textless_db 7 ≠ []) as Hne by done.
  destruct (Db.get_selected_experiment_cases_with_data textless_db 7) as [|cr rest] eqn:Hj;
    [done|].
  exists cr. split; [left|].
  by vm_compute in Hj; injection Hj as <- _.
Qed.


(** ** The schedule of the failures *)

Lemma fails_at_0 (db : Db.Store) : fails_at db 0 = Db.raises db.
Proof. unfold fails_at, Db.raises. by destruct (Db.faults db). Qed.

Lemma fails_at_tail (db db' : Db.Store) (i : nat) :
  Db.faults db' = tail (Db.faults db) → fails_at db' i = fails_at db (S i).
Proof. unfold fails_at. intros ->. by destruct (Db.faults db). Qed.

(** ** Case selection *)

(** *** One cell of the grid *)

Lemma case_keys_snoc (cases : list ExperimentCase.t) (c : ExperimentCase.t) :
  App.case_keys (cases ++ [c]) = <[ExperimentCase.key c := c]> (App.case_keys cases).
Proof. unfold App.case_keys. by rewrite foldl_snoc. Qed.

Lemma case_keys_Some (cases : list ExperimentCase.t) (k : Z * Z) (c : ExperimentCase.t) :
  App.case_keys cases !! k = Some c → c ∈ cases ∧ ExperimentCase.key c = k.
Proof.
  induction cases as [|c' cases IH] using rev_ind; [done|].
  rewrite case_keys_snoc, lookup_insert. case_decide as Hk.
  - intros [= ->]. split; [|done]. apply elem_of_app. right. left.
  - intros [Hin ?]%IH. split; [|done]. apply elem_of_app. by left.
Qed.

Lemma case_keys_None (cases : list ExperimentCase.t) (k : Z * Z) :
  App.case_keys cases !! k = None → ∀ c, c ∈ cases → ExperimentCase.key c ≠ k.
Proof.
  induction cases as [|c' cases IH] using rev_ind; [by intros _ c ?%elem_of_nil|].
  rewrite case_keys_snoc, lookup_insert. case_decide as Hk; [done|].
  intros Hnone c [Hin|Hin%list_elem_of_singleton]%elem_of_app.
  - by apply IH.
  - by subst.
Qed.

Lemma update_row_tuple (case_id : Z) (b : bool) (c : ExperimentCase.t) :
  tuple (Db.update_row case_id b c) = tuple c.
Proof. unfold Db.update_row. by case_bool_decide. Qed.

(** C2, amended.  For a pair with an answer that has text, the checkbox is
    drawn with the stored value of the case the grid found for the pair,
    or ticked when it found none, and returns [selected].  With a case: a
    [selected] other than the stored value sends one update, which sets
    [is_selected] of the rows with the identifier of that case and leaves
    every row in its place; a [selected] equal to the stored value sends
    nothing.  With no case: a ticked box, which is what the box is drawn
    as, sends one insertion of a row holding true for the pair; a box that
    is not ticked sends nothing, and no row is made.  When the grid has
    read its cases from a store, the case it found for the pair is a row
    of that store for the experiment and the pair, and, the read not
    having failed, it found none only if that store has no such row. *)
Theorem case_cell_writes (session : App.Session) (experiment : Experiment.t)
    (existing_case_keys : gmap (Z * Z) ExperimentCase.t)
    (question : Question.t) (db : Db.Store) (grid : list App.Cell) (user : User.t) :
  answered db (Question.id question) (User.id user) = true →
  let e := Experiment.id experiment in
  let q := Question.id question in
  let u := User.id user in
  let existing_case := existing_case_keys !! (q, u) in
  let value := from_option ExperimentCase.is_selected true existing_case in
  let selected := App.checkbox session (App.case_widget_key e q u) value in
  let db' := (App.case_cell session experiment existing_case_keys question (db, grid) user).1 in
  (∀ c, existing_case = Some c → selected ≠ ExperimentCase.is_selected c →
     Db.journal db' = Db.journal db ++ [Db.UpdateCase (ExperimentCase.id c) selected]
     ∧ Db.experiment_cases db'
       = (fun row => if bool_decide (ExperimentCase.id row = ExperimentCase.id c)
                     then ExperimentCase.with_selection selected row else row)
         <$> Db.experiment_cases db
     ∧ Db.next_case_id db' = Db.next_case_id db
     ∧ same_but_cases db db')
  ∧ (∀ c, existing_case = Some c → selected = ExperimentCase.is_selected c → db' = db)
  ∧ (existing_case = None → selected = true →
     Db.journal db' = Db.journal db ++ [Db.InsertCase e q u true]
     ∧ Db.experiment_cases db'
       = Db.experiment_cases db
         ++ [ {| ExperimentCase.id := Db.next_case_id db;
                 ExperimentCase.experiment_id := e;
                 ExperimentCase.question_id := q;
                 ExperimentCase.user_id := u;
                 ExperimentCase.is_selected := true |} ]
     ∧ same_but_cases db db')
  ∧ (existing_case = None → selected = false → db' = db)
  ∧ (∀ db0, existing_case_keys = App.case_keys (Db.get_experiment_cases db0 e).1 →
       (∀ c, existing_case = Some c →
          c ∈ Db.experiment_cases db0 ∧ tuple c = (e, q, u))
       ∧ (existing_case = None → Db.raises db0 = false →
          ∀ c, c ∈ Db.experiment_cases db0 → tuple c ≠ (e, q, u))).
Proof.
  intros Ha e q u existing_case value selected db'.
  subst db'. unfold App.case_cell. fold e q u. unfold answered in Ha. fold q u in Ha.
  rewrite Ha. fold existing_case.
  replace (match existing_case with
           | Some c => ExperimentCase.is_selected c
           | None => true
           end) with value by (by destruct existing_case).
  fold selected.
  split_and!.
  - intros c -> Hne. simpl.
    rewrite (proj2 (negb_true_iff _)) by (by apply eqb_false_iff).
    done.
  - intros c -> Heq. simpl. by rewrite Heq, eqb_reflx.
  - intros -> ->. done.
  - intros -> ->. done.
  - intros db0 ->. subst existing_case. unfold Db.get_experiment_cases. cbn [fst]. split.
    + destruct (Db.raises db0); [by intros c [?%elem_of_nil _]%case_keys_Some|].
      intros c [[He Hin]%list_elem_of_filter Hk]%case_keys_Some.
      split; [done|]. unfold tuple. by injection Hk as -> ->; rewrite He.
    + intros Hnone Hread c Hin [= He Hq Hu]. rewrite Hread in Hnone.
      apply (case_keys_None _ _ Hnone c); [by apply list_elem_of_filter|].
      unfold ExperimentCase.key. by rewrite Hq, Hu.
Qed.

(** *** The whole grid *)

Lemma answered_same (db db' : Db.Store) (q u : Z) :
  same_but_cases db db' → answered db' q u = answered db q u.
Proof.
  intros (_ & _ & Ha & _). unfold answered, Db.get_answer_by_question_and_user.
  by rewrite Ha.
Qed.

Lemma same_but_cases_refl (db : Db.Store) : same_but_cases db db.
Proof. by repeat split. Qed.

Lemma same_but_cases_trans (db1 db2 db3 : Db.Store) :
  same_but_cases db1 db2 → same_but_cases db2 db3 → same_but_cases db1 db3.
Proof.
  intros (? & ? & ? & ? & ?) (? & ? & ? & ? & ?). repeat split; congruence.
Qed.

(** What one cell does to the tuples of the case rows and to the grid. *)
Lemma case_cell_tuples (session : App.Session) (experiment : Experiment.t)
    (keys : gmap (Z * Z) ExperimentCase.t)
    (question : Question.t) (db : Db.Store) (grid : list App.Cell) (user : User.t) :
  let q := Question.id question in
  let u := User.id user in
  let st := App.case_cell session experiment keys question (db, grid) user in
  same_but_cases db st.1
  ∧ (tuple <$> Db.experiment_cases st.1 = tuple <$> Db.experiment_cases db
     ∨ keys !! (q, u) = None ∧ answered db q u = true
       ∧ tuple <$> Db.experiment_cases st.1
         = (tuple <$> Db.experiment_cases db) ++ [(Experiment.id experiment, q, u)])
  ∧ ((∃ v s, st.2 = grid ++ [App.Offered q u v s] ∧ answered db q u = true)
     ∨ st.2 = grid ++ [App.NoAnswer q u] ∧ answered db q u = false).
Proof.
  intros q u st. subst st. unfold App.case_cell. fold q u.
  fold (answered db q u). destruct (answered db q u) eqn:Ha; simpl.
  2: { split_and!; [apply same_but_cases_refl|by left|by right]. }
  destruct (keys !! (q, u)) as [c|] eqn:Hk; simpl.
  - destruct (negb _); simpl.
    + split_and!; [by repeat split| |by left; eauto].
      left. rewrite <- list_fmap_compose. apply list_fmap_ext.
      intros i row _. apply update_row_tuple.
    + split_and!; [apply same_but_cases_refl|by left|by left; eauto].
  - destruct (App.checkbox _ _ _) eqn:Hs; simpl.
    + split_and!; [by repeat split| |by left; eauto].
      right. split_and!; [done..|]. by rewrite fmap_app.
    + split_and!; [apply same_but_cases_refl|by left|by left; eauto].
Qed.

Lemma all_pairs_NoDup (questions : list Question.t) (users : list User.t) :
  NoDup (Question.id <$> questions) → NoDup (User.id <$> users) →
  NoDup (all_pairs questions users).
Proof.
  intros Hq Hu. induction questions as [|q questions IH]; [constructor|].
  apply NoDup_cons in Hq as [Hq1 Hq2].
  unfold all_pairs. rewrite bind_cons. apply NoDup_app. split_and!.
  - unfold pairs_of.
    rewrite (list_fmap_compose User.id (pair (Question.id q))).
    apply (NoDup_fmap_2 _), Hu.
  - intros [q' u'] ([u ?] & [= -> ->] & _)%list_elem_of_fmap
      (q'' & ([u'' ?] & [= Hqq _] & _)%list_elem_of_fmap & Hin)%list_elem_of_bind.
    apply Hq1. rewrite Hqq. by apply list_elem_of_fmap_2.
  - by apply IH.
Qed.

Lemma grid_inv_cell (session : App.Session) (experiment : Experiment.t)
    (db0 : Db.Store) (keys : gmap (Z * Z) ExperimentCase.t)
    (processed : list (Z * Z)) (st : Db.Store * list App.Cell)
    (question : Question.t) (user : User.t) :
  grid_inv db0 (Experiment.id experiment) keys processed st →
  (Question.id question, User.id user) ∉ processed →
  grid_inv db0 (Experiment.id experiment) keys
    (processed ++ [(Question.id question, User.id user)])
    (App.case_cell session experiment keys question st user).
Proof.
  destruct st as [db grid].
  intros (Hsame & (new & Hrows & Hsub & Hnd & Hnew) & Hoff & Hno) Hfresh.
  pose proof (case_cell_tuples session experiment keys question db grid user)
    as (Hsame' & Hrows' & Hgrid').
  cbv zeta in Hsame', Hrows', Hgrid'.
  rewrite (answered_same db0 db) in Hrows', Hgrid' by done.
  unfold grid_inv.
  set (st' := App.case_cell session experiment keys question (db, grid) user) in *.
  clearbody st'. simpl in Hsame, Hrows, Hoff, Hno.
  split_and!.
  - by eapply same_but_cases_trans.
  - destruct Hrows' as [Heq|(Hk & Ha & Heq)].
    + exists new. rewrite Heq. split_and!; [done| |done..].
      intros p Hp. apply elem_of_app. left. by apply Hsub.
    + exists (new ++ [(Question.id question, User.id user)]).
      rewrite Heq, Hrows, fmap_app, <- (assoc (++)). split_and!; [done| | |].
      * intros p [Hp|Hp]%elem_of_app; apply elem_of_app; [left; by apply Hsub|by right].
      * apply NoDup_app. split_and!; [done| |apply NoDup_singleton].
        intros p Hp ->%list_elem_of_singleton. by apply Hfresh, Hsub.
      * intros p [Hp| ->%list_elem_of_singleton]%elem_of_app; [by apply Hnew|done].
  - intros q u v s Hin. destruct Hgrid' as [(v' & s' & Hg & Ha)|[Hg Ha]]; rewrite Hg in Hin.
    + apply elem_of_app in Hin as [Hin|[= -> -> _ _]%list_elem_of_singleton]; [|done].
      by eapply Hoff.
    + apply elem_of_app in Hin as [Hin|?%list_elem_of_singleton]; [|done].
      by eapply Hoff.
  - intros q u Hin. destruct Hgrid' as [(v' & s' & Hg & Ha)|[Hg Ha]]; rewrite Hg in Hin.
    + apply elem_of_app in Hin as [Hin|?%list_elem_of_singleton]; [|done].
      by eapply Hno.
    + apply elem_of_app in Hin as [Hin|[= -> ->]%list_elem_of_singleton]; [|done].
      by eapply Hno.
Qed.

Lemma grid_inv_row (session : App.Session) (experiment : Experiment.t)
    (db0 : Db.Store) (keys : gmap (Z * Z) ExperimentCase.t)
    (question : Question.t) (users : list User.t)
    (processed : list (Z * Z)) (st : Db.Store * list App.Cell) :
  grid_inv db0 (Experiment.id experiment) keys processed st →
  NoDup (processed ++ pairs_of question users) →
  grid_inv db0 (Experiment.id experiment) keys (processed ++ pairs_of question users)
    (foldl (App.case_cell session experiment keys question) st users).
Proof.
  revert processed st.
  induction users as [|user users IH]; intros processed st Hinv Hnd.
  - unfold pairs_of. simpl. by rewrite app_nil_r.
  - unfold pairs_of in *. rewrite fmap_cons in *. simpl.
    rewrite (cons_middle _ processed), (assoc (++)) in Hnd |- *.
    apply IH; [|done].
    apply grid_inv_cell; [done|].
    apply NoDup_app in Hnd as (Hnd & _ & _).
    apply NoDup_app in Hnd as (_ & Hnd & _).
    intros Hin. by apply (Hnd _ Hin), list_elem_of_singleton.
Qed.

Lemma grid_inv_grid (session : App.Session) (experiment : Experiment.t)
    (db0 : Db.Store) (keys : gmap (Z * Z) ExperimentCase.t)
    (questions : list Question.t) (users : list User.t)
    (processed : list (Z * Z)) (st : Db.Store * list App.Cell) :
  grid_inv db0 (Experiment.id experiment) keys processed st →
  NoDup (processed ++ all_pairs questions users) →
  grid_inv db0 (Experiment.id experiment) keys (processed ++ all_pairs questions users)
    (foldl (fun state question =>
              foldl (App.case_cell session experiment keys question) state users)
       st questions).
Proof.
  revert processed st.
  induction questions as [|question questions IH]; intros processed st Hinv Hnd.
  - unfold all_pairs. simpl. by rewrite app_nil_r.
  - unfold all_pairs in *. rewrite bind_cons in *. simpl.
    rewrite (assoc (++)) in Hnd |- *.
    apply IH; [|done].
    apply grid_inv_row; [done|].
    by apply NoDup_app in Hnd as (Hnd & _ & _).
Qed.

Lemma filter_ids_NoDup {A} (id : A → Z) (P : A → Prop) `{!∀ x, Decision (P x)}
    (rows : list A) :
  NoDup (id <$> rows) → NoDup (id <$> filter P rows).
Proof.
  induction rows as [|row rows IH]; [done|].
  rewrite fmap_cons. intros [Hrow Hrows]%NoDup_cons.
  rewrite filter_cons. case_decide; [|by apply IH].
  rewrite fmap_cons. apply NoDup_cons. split; [|by apply IH].
  intros (row' & Hid & [_ Hin]%list_elem_of_filter)%list_elem_of_fmap.
  apply Hrow. rewrite Hid. by apply list_elem_of_fmap_2.
Qed.

(** Drawing the grid of an experiment over questions and users that are
    told apart by their identifiers. *)
Lemma case_grid_rows (session : App.Session) (experiment : Experiment.t)
    (questions : list Question.t) (users : list User.t) (db : Db.Store) :
  NoDup (Question.id <$> questions) → NoDup (User.id <$> users) →
  let st := App.case_grid session experiment questions users db in
  same_but_cases db st.1
  ∧ (Db.raises db = false → cases_unique db → cases_unique st.1)
  ∧ (∀ c, c ∈ Db.experiment_cases st.1 →
       tuple c ∈ tuple <$> Db.experiment_cases db
       ∨ answered db (ExperimentCase.question_id c) (ExperimentCase.user_id c) = true)
  ∧ (∀ q u v s, App.Offered q u v s ∈ st.2 → answered db q u = true)
  ∧ (∀ q u, App.NoAnswer q u ∈ st.2 → answered db q u = false).
Proof.
  intros Hq Hu st. subst st. unfold App.case_grid, Db.get_experiment_cases.
  set (keys := App.case_keys
                 (if Db.raises db then []
                  else filter (fun c => ExperimentCase.experiment_id c = Experiment.id experiment)
                         (Db.experiment_cases db))).
  pose proof (grid_inv_grid session experiment db keys questions users []
                (Db.after_read db, [])) as Hinv.
  destruct Hinv as (Hsame & (new & Hrows & _ & Hnd & Hnew) & Hoff & Hno).
  { split_and!; [by repeat split| |by intros ???? ?%elem_of_nil
                                  |by intros ?? ?%elem_of_nil].
    exists []. rewrite app_nil_r. split_and!; [done|done|constructor|].
    by intros ? ?%elem_of_nil. }
  { by apply all_pairs_NoDup. }
  split_and!; [done| |  |done|done].
  - intros Hread Huniq. subst keys. rewrite Hread in Hnew.
    unfold cases_unique. rewrite Hrows. apply NoDup_app. split_and!; [done| |].
    + intros t (c & -> & Hc)%list_elem_of_fmap ([q u] & Ht & Hp)%list_elem_of_fmap.
      simpl in Ht. apply Hnew in Hp as [Hnone _].
      apply (case_keys_None _ _ Hnone c).
      * apply list_elem_of_filter. split; [|done]. by injection Ht.
      * unfold ExperimentCase.key. by injection Ht as _ -> ->.
    + apply NoDup_fmap_2_strong; [|done]. by intros [??] [??] _ _ [= -> ->].
  - intros c Hc. apply (list_elem_of_fmap_2 tuple) in Hc. rewrite Hrows in Hc.
    apply elem_of_app in Hc as [Hc|([q u] & Ht & Hp)%list_elem_of_fmap]; [by left|].
    right. apply Hnew in Hp as [_ Ha]. simpl in *. by injection Ht as _ -> ->.
Qed.

Lemma case_selection_rows (session : App.Session) (prompt : Prompt.t)
    (experiment : Experiment.t) (db : Db.Store) :
  ids_unique db →
  let st := App.case_selection session prompt experiment db in
  same_but_cases db st.1
  ∧ (Db.raises db = false → cases_unique db → cases_unique st.1)
  ∧ (∀ c, c ∈ Db.experiment_cases st.1 →
       tuple c ∈ tuple <$> Db.experiment_cases db
       ∨ answered db (ExperimentCase.question_id c) (ExperimentCase.user_id c) = true)
  ∧ (∀ q u v s, App.Offered q u v s ∈ st.2 → answered db q u = true)
  ∧ (∀ q u, App.NoAnswer q u ∈ st.2 → answered db q u = false).
Proof.
  intros [Hq Hu] st. subst st. unfold App.case_selection.
  pose proof (case_grid_rows session experiment
                (Db.get_questions_by_prompt db (Prompt.id prompt))
                (Db.get_all_users db) db
                (filter_ids_NoDup _ _ _ Hq) Hu) as Hgrid.
  assert (same_but_cases db db
          ∧ (Db.raises db = false → cases_unique db → cases_unique db)
          ∧ (∀ c, c ∈ Db.experiment_cases db →
               tuple c ∈ tuple <$> Db.experiment_cases db
               ∨ answered db (ExperimentCase.question_id c) (ExperimentCase.user_id c) = true)
          ∧ (∀ q u v s, App.Offered q u v s ∈ ([] : list App.Cell) → answered db q u = true)
          ∧ (∀ q u, App.NoAnswer q u ∈ ([] : list App.Cell) → answered db q u = false))
    as Hidle.
  { split_and!; [apply same_but_cases_refl|done| |by intros ???? ?%elem_of_nil
                                                 |by intros ?? ?%elem_of_nil].
    intros c Hc. left. by apply list_elem_of_fmap_2. }
  destruct (Db.get_questions_by_prompt db (Prompt.id prompt)); [done|].
  destruct (Db.get_all_users db); done.
Qed.

Lemma evolves_invariant (db0 db : Db.Store) :
  ids_unique db0 → cases_unique db0 → evolves db0 db →
  ids_unique db ∧ cases_unique db.
Proof.
  intros Hids Huniq Hev.
  induction Hev as [db|db db' session prompt experiment Hev IH Hread
                    |db db' db'' Hev IH Hrows Hids''].
  - done.
  - destruct (IH Hids Huniq) as [Hids' Huniq'].
    pose proof (case_selection_rows session prompt experiment db' Hids')
      as ((Hqs & Hus & _) & Hu & _).
    split; [|by apply Hu]. unfold ids_unique. rewrite Hqs, Hus. done.
  - destruct (IH Hids Huniq) as [_ Huniq']. split; [done|].
    unfold cases_unique. by rewrite Hrows.
Qed.



(** *** The grid drawn twice *)

Lemma checkbox_again (session : App.Session) (key : string) (value : bool) :
  App.checkbox session key (App.checkbox session key value) = App.checkbox session key value.
Proof. unfold App.checkbox. by destruct (session !! key). Qed.

Lemma update_row_skeleton (case_id : Z) (b : bool) (c : ExperimentCase.t) :
  skeleton (Db.update_row case_id b c) = skeleton c.
Proof. unfold Db.update_row. by case_bool_decide. Qed.

Lemma read_keys (rows : list ExperimentCase.t) (e : Z) (p : Z * Z) :
  let keys := App.case_keys (filter (fun c => ExperimentCase.experiment_id c = e) rows) in
  (∀ c, keys !! p = Some c → c ∈ rows ∧ tuple c = (e, p.1, p.2))
  ∧ (keys !! p = None → ∀ c, c ∈ rows → tuple c ≠ (e, p.1, p.2)).
Proof.
  intros keys. destruct p as [q u]. split.
  - intros c [[He Hin]%list_elem_of_filter Hk]%case_keys_Some.
    split; [done|]. unfold tuple. by injection Hk as -> ->; rewrite He.
  - intros Hnone c Hin [= He Hq Hu].
    apply (case_keys_None _ _ Hnone c); [by apply list_elem_of_filter|].
    unfold ExperimentCase.key. by rewrite Hq, Hu.
Qed.

(** A row that bears the identifier of a row of the store the drawing
    started from stands for the same experiment and pair. *)
Lemma same_id_same_tuple (rows0 rows : list ExperimentCase.t)
    (extra : list (Z * (Z * Z * Z))) (c0 c : ExperimentCase.t) :
  skeleton <$> rows = (skeleton <$> rows0) ++ extra →
  NoDup (ExperimentCase.id <$> rows) →
  c0 ∈ rows0 → c ∈ rows → ExperimentCase.id c = ExperimentCase.id c0 →
  tuple c = tuple c0.
Proof.
  intros Hskel Hnd Hc0 Hc Hid.
  assert (skeleton c0 ∈ skeleton <$> rows) as (c1 & Hs & Hc1)%list_elem_of_fmap.
  { rewrite Hskel. apply elem_of_app. left. by apply list_elem_of_fmap_2. }
  pose proof (f_equal fst Hs) as Hid1. pose proof (f_equal snd Hs) as Ht1.
  cbn [skeleton fst snd] in Hid1, Ht1.
  assert (c = c1) as -> by (apply (NoDup_fmap_eq ExperimentCase.id rows); [done..|congruence]).
  done.
Qed.

Lemma pass_inv_cell (session : App.Session) (experiment : Experiment.t)
    (db0 : Db.Store) (processed : list (Z * Z)) (st : Db.Store * list App.Cell)
    (question : Question.t) (user : User.t) :
  let e := Experiment.id experiment in
  let keys := App.case_keys (filter (fun c => ExperimentCase.experiment_id c = e)
                               (Db.experiment_cases db0)) in
  cases_unique db0 →
  pass_inv session db0 e processed st →
  (Question.id question, User.id user) ∉ processed →
  pass_inv session db0 e (processed ++ [(Question.id question, User.id user)])
    (App.case_cell session experiment keys question st user).
Proof.
  intros e keys Huniq. destruct st as [db grid].
  intros (Hsame & (extra & Hskel) & (Hids & Hfresh) & Hdone & Htodo) Hnew.
  cbn [fst snd] in *.
  set (q := Question.id question) in *. set (u := User.id user) in *.
  pose proof (read_keys (Db.experiment_cases db0) e (q, u)) as [Hsome Hnone].
  fold keys in Hsome, Hnone. cbn [fst snd] in Hsome, Hnone.
  unfold App.case_cell. fold q u e. fold (answered db q u).
  rewrite (answered_same db0 db) by done.
  assert (∀ p, p ∉ processed ++ [(q, u)] → (p ∉ processed) ∧ p ≠ (q, u)) as Hsplit.
  { intros p Hp. split; intros ?; apply Hp, elem_of_app; [by left|right; subst; left]. }
  (* what holds when the cell leaves the rows as they are *)
  assert (settled session e (Db.experiment_cases db) (q, u) →
          pass_inv session db0 e (processed ++ [(q, u)]) (db, grid)) as Hidle.
  { intros Hset. split_and!; cbn [fst snd]; [done|by exists extra|done| |].
    - intros p [Hp| ->%list_elem_of_singleton]%elem_of_app Ha; [by apply Hdone|done].
    - intros p c [Hp _]%Hsplit. by apply Htodo. }
  destruct (answered db0 q u) eqn:Ha.
  2: { split_and!; cbn [fst snd]; [done|by exists extra|done| |].
       - intros p [Hp| ->%list_elem_of_singleton]%elem_of_app Ha'; [by apply Hdone|].
         cbn [fst snd] in Ha'. congruence.
       - intros p c [Hp _]%Hsplit. by apply Htodo. }
  destruct (keys !! (q, u)) as [c0|] eqn:Hk.
  - destruct (Hsome c0 eq_refl) as [Hc0 Ht0].
    set (selected := App.checkbox session (App.case_widget_key e q u)
                       (ExperimentCase.is_selected c0)).
    assert (∀ c, c ∈ Db.experiment_cases db → tuple c = (e, q, u) → c = c0) as Hthe.
    { intros c Hc Ht. apply (NoDup_fmap_eq tuple (Db.experiment_cases db0)); [done| |done|congruence].
      by apply (Htodo (q, u)). }
    assert (∃ c, c ∈ Db.experiment_cases db ∧ tuple c = (e, q, u)) as Hhas.
    { assert (skeleton c0 ∈ skeleton <$> Db.experiment_cases db)
        as (c1 & Hs & Hc1)%list_elem_of_fmap.
      { rewrite Hskel. apply elem_of_app. left. by apply list_elem_of_fmap_2. }
      exists c1. split; [done|]. pose proof (f_equal snd Hs) as Ht1.
      cbn [skeleton snd] in Ht1. congruence. }
    destruct (negb (eqb selected (ExperimentCase.is_selected c0))) eqn:Hchanged.
    + (* one update *)
      cbn [fst snd Db.update_experiment_case_selection].
      split_and!; cbn [fst snd Db.experiment_cases Db.next_case_id].
      * by destruct Hsame as (? & ? & ? & ? & ?).
      * exists extra. rewrite <- list_fmap_compose, <- Hskel. apply list_fmap_ext.
        intros i c _. apply update_row_skeleton.
      * unfold case_ids_fresh. cbn [Db.experiment_cases Db.next_case_id]. split.
        -- rewrite <- list_fmap_compose.
           rewrite (list_fmap_ext _ ExperimentCase.id (Db.experiment_cases db)); [done|].
           intros i c _. simpl. unfold Db.update_row. by case_bool_decide.
        -- intros c' (c & -> & Hc)%list_elem_of_fmap. specialize (Hfresh c Hc).
           unfold Db.update_row. by case_bool_decide.
      * intros p Hp Hap. split.
        -- intros c' (c & -> & Hc)%list_elem_of_fmap Ht.
           assert (tuple c = (e, p.1, p.2)) as Ht'.
           { rewrite <- Ht. symmetry.
             apply (f_equal snd (update_row_skeleton (ExperimentCase.id c0) selected c)). }
           apply elem_of_app in Hp as [Hp| ->%list_elem_of_singleton].
           ++ assert (ExperimentCase.id c ≠ ExperimentCase.id c0) as Hother.
              { intros Hid.
                pose proof (same_id_same_tuple _ _ _ c0 c Hskel Hids Hc0 Hc Hid) as Hsame_t.
                apply Hnew. destruct p as [q' u']. cbn [fst snd] in Ht'.
                rewrite Ht0, Ht' in Hsame_t. by injection Hsame_t as -> ->. }
              unfold Db.update_row. rewrite bool_decide_eq_false_2 by done.
              by apply (proj1 (Hdone p Hp Hap)).
           ++ cbn [fst snd] in *. rewrite (Hthe c Hc Ht').
              unfold Db.update_row. rewrite bool_decide_eq_true_2 by done.
              cbn [ExperimentCase.with_selection ExperimentCase.is_selected].
              apply checkbox_again.
        -- intros Hnone'.
           assert (∀ c, c ∈ Db.experiment_cases db → tuple c ≠ (e, p.1, p.2)) as Hnone''.
           { intros c Hc Ht. apply (Hnone' (Db.update_row (ExperimentCase.id c0) selected c)).
             - by apply list_elem_of_fmap_2.
             - rewrite <- Ht.
               apply (f_equal snd (update_row_skeleton (ExperimentCase.id c0) selected c)). }
           apply elem_of_app in Hp as [Hp| ->%list_elem_of_singleton].
           ++ by apply (proj2 (Hdone p Hp Hap)).
           ++ destruct Hhas as (c & Hc & Ht). by destruct (Hnone'' c Hc).
      * intros p c' [Hp Hne]%Hsplit (c & -> & Hc)%list_elem_of_fmap Ht.
        assert (tuple c = (e, p.1, p.2)) as Ht'.
        { rewrite <- Ht. symmetry.
          apply (f_equal snd (update_row_skeleton (ExperimentCase.id c0) selected c)). }
        assert (ExperimentCase.id c ≠ ExperimentCase.id c0) as Hother.
        { intros Hid.
          pose proof (same_id_same_tuple _ _ _ c0 c Hskel Hids Hc0 Hc Hid) as Hsame_t.
          apply Hne. destruct p as [q' u']. cbn [fst snd] in Ht'.
          rewrite Ht0, Ht' in Hsame_t. by injection Hsame_t as -> ->. }
        unfold Db.update_row. rewrite bool_decide_eq_false_2 by done.
        by apply (Htodo p).
    + (* the box came back as it was drawn *)
      apply negb_false_iff, eqb_prop in Hchanged.
      cbn [fst snd]. 
      assert (pass_inv session db0 e (processed ++ [(q, u)]) (db, grid)) as Hinv.
      { apply Hidle. split.
        - intros c Hc Ht. cbn [fst snd] in Ht. rewrite (Hthe c Hc Ht). done.
        - intros Hno. destruct Hhas as (c & Hc & Ht). by destruct (Hno c Hc). }
      destruct Hinv as (? & ? & ? & ? & ?). split_and!; done.
  - specialize (Hnone eq_refl).
    assert (∀ c, c ∈ Db.experiment_cases db → tuple c ≠ (e, q, u)) as Hno.
    { intros c Hc Ht. apply (Hnone c); [|done]. by apply (Htodo (q, u)). }
    destruct (App.checkbox session (App.case_widget_key e q u) true) eqn:Hsel.
    + (* one insertion *)
      cbn [fst snd Db.create_experiment_case].
      split_and!; cbn [fst snd Db.experiment_cases Db.next_case_id].
      * by destruct Hsame as (? & ? & ? & ? & ?).
      * eexists. rewrite fmap_app, Hskel, <- (assoc (++)). done.
      * unfold case_ids_fresh. cbn [Db.experiment_cases Db.next_case_id]. split.
        -- rewrite fmap_app. apply NoDup_app. split_and!; [done| |apply NoDup_singleton].
           intros i (c & -> & Hc)%list_elem_of_fmap Heq%list_elem_of_singleton.
           specialize (Hfresh c Hc). simpl in Heq. lia.
        -- intros c [Hc| ->%list_elem_of_singleton]%elem_of_app.
           ++ specialize (Hfresh c Hc). lia.
           ++ simpl. lia.
      * intros p Hp Hap. split.
        -- intros c [Hc| ->%list_elem_of_singleton]%elem_of_app Ht.
           ++ apply elem_of_app in Hp as [Hp| ->%list_elem_of_singleton].
              ** by apply (proj1 (Hdone p Hp Hap)).
              ** by destruct (Hno c Hc).
           ++ cbn [ExperimentCase.is_selected].
              assert (p = (q, u)) as ->
                by (destruct p; unfold tuple in Ht; simpl in Ht; congruence).
              cbn [fst snd]. by rewrite Hsel.
        -- intros Hnone'.
           apply elem_of_app in Hp as [Hp| ->%list_elem_of_singleton].
           ++ apply (proj2 (Hdone p Hp Hap)). intros c Hc.
              apply Hnone', elem_of_app. by left.
           ++ exfalso. eapply Hnone'; [apply elem_of_app; right; left|done].
      * intros p c [Hp Hne]%Hsplit [Hc| ->%list_elem_of_singleton]%elem_of_app Ht.
        -- by apply (Htodo p).
        -- destruct Hne. destruct p; unfold tuple in Ht; simpl in Ht; congruence.
    + cbn [fst snd].
      assert (pass_inv session db0 e (processed ++ [(q, u)]) (db, grid)) as Hinv.
      { apply Hidle. split; [|done]. intros c Hc Ht. by destruct (Hno c Hc). }
      destruct Hinv as (? & ? & ? & ? & ?). split_and!; done.
Qed.

Lemma pass_inv_row (session : App.Session) (experiment : Experiment.t)
    (db0 : Db.Store) (question : Question.t) (users : list User.t)
    (processed : list (Z * Z)) (st : Db.Store * list App.Cell) :
  let e := Experiment.id experiment in
  let keys := App.case_keys (filter (fun c => ExperimentCase.experiment_id c = e)
                               (Db.experiment_cases db0)) in
  cases_unique db0 →
  pass_inv session db0 e processed st →
  NoDup (processed ++ pairs_of question users) →
  pass_inv session db0 e (processed ++ pairs_of question users)
    (foldl (App.case_cell session experiment keys question) st users).
Proof.
  intros e keys Huniq. revert processed st.
  induction users as [|user users IH]; intros processed st Hinv Hnd.
  - unfold pairs_of. simpl. by rewrite app_nil_r.
  - unfold pairs_of in *. rewrite fmap_cons in *. simpl.
    rewrite (cons_middle _ processed), (assoc (++)) in Hnd |- *.
    apply IH; [|done].
    apply pass_inv_cell; [done..|].
    apply NoDup_app in Hnd as (Hnd & _ & _).
    apply NoDup_app in Hnd as (_ & Hnd & _).
    intros Hin. by apply (Hnd _ Hin), list_elem_of_singleton.
Qed.

Lemma pass_inv_grid (session : App.Session) (experiment : Experiment.t)
    (db0 : Db.Store) (questions : list Question.t) (users : list User.t)
    (processed : list (Z * Z)) (st : Db.Store * list App.Cell) :
  let e := Experiment.id experiment in
  let keys := App.case_keys (filter (fun c => ExperimentCase.experiment_id c = e)
                               (Db.experiment_cases db0)) in
  cases_unique db0 →
  pass_inv session db0 e processed st →
  NoDup (processed ++ all_pairs questions users) →
  pass_inv session db0 e (processed ++ all_pairs questions users)
    (foldl (fun state question =>
              foldl (App.case_cell session experiment keys question) state users)
       st questions).
Proof.
  intros e keys Huniq. revert processed st.
  induction questions as [|question questions IH]; intros processed st Hinv Hnd.
  - unfold all_pairs. simpl. by rewrite app_nil_r.
  - unfold all_pairs in *. rewrite bind_cons in *. simpl.
    rewrite (assoc (++)) in Hnd |- *.
    apply IH; [|done].
    apply pass_inv_row; [done..|].
    by apply NoDup_app in Hnd as (Hnd & _ & _).
Qed.

(** What the cell and the grid do to the schedule of the failures:
    nothing, but for the read of the grid. *)
Lemma case_cell_faults (session : App.Session) (experiment : Experiment.t)
    (keys : gmap (Z * Z) ExperimentCase.t) (question : Question.t)
    (st : Db.Store * list App.Cell) (user : User.t) :
  Db.faults (App.case_cell session experiment keys question st user).1 = Db.faults st.1.
Proof.
  destruct st as [db grid]. unfold App.case_cell.
  destruct (App.has_answer _); [|done].
  destruct (keys !! _); [by destruct (negb _)|by destruct (App.checkbox _ _ _)].
Qed.

Lemma case_grid_faults (session : App.Session) (experiment : Experiment.t)
    (questions : list Question.t) (users : list User.t) (db : Db.Store) :
  Db.faults (App.case_grid session experiment questions users db).1 = tail (Db.faults db).
Proof.
  unfold App.case_grid, Db.get_experiment_cases.
  change (tail (Db.faults db)) with (Db.faults (Db.after_read db, @nil App.Cell).1).
  generalize (Db.after_read db, @nil App.Cell).
  induction questions as [|question questions IH]; intros st; [done|].
  cbn [foldl]. rewrite IH. clear IH.
  revert st. induction users as [|user users IH]; intros st; [done|].
  cbn [foldl]. rewrite IH. apply case_cell_faults.
Qed.

(** A cell whose box has nothing to say leaves the store as it is. *)
Lemma settled_cell (session : App.Session) (experiment : Experiment.t)
    (question : Question.t) (db : Db.Store) (grid : list App.Cell) (user : User.t) :
  let e := Experiment.id experiment in
  let keys := App.case_keys (filter (fun c => ExperimentCase.experiment_id c = e)
                               (Db.experiment_cases db)) in
  (answered db (Question.id question) (User.id user) = true →
   settled session e (Db.experiment_cases db) (Question.id question, User.id user)) →
  (App.case_cell session experiment keys question (db, grid) user).1 = db.
Proof.
  intros e keys Hset. unfold App.case_cell.
  fold (answered db (Question.id question) (User.id user)). fold e.
  destruct (answered db _ _); [|done]. destruct (Hset eq_refl) as [Hrow Hnone].
  pose proof (read_keys (Db.experiment_cases db) e (Question.id question, User.id user))
    as [Hsome Hno].
  fold keys in Hsome, Hno. cbn [fst snd] in *.
  destruct (keys !! (Question.id question, User.id user)) as [c|].
  - destruct (Hsome c eq_refl) as [Hc Ht]. rewrite (Hrow c Hc Ht). by rewrite eqb_reflx.
  - by rewrite (Hnone (Hno eq_refl)).
Qed.

Lemma settled_grid (session : App.Session) (experiment : Experiment.t)
    (questions : list Question.t) (users : list User.t) (db : Db.Store)
    (grid : list App.Cell) :
  let e := Experiment.id experiment in
  let keys := App.case_keys (filter (fun c => ExperimentCase.experiment_id c = e)
                               (Db.experiment_cases db)) in
  (∀ p, p ∈ all_pairs questions users → answered db p.1 p.2 = true →
        settled session e (Db.experiment_cases db) p) →
  (foldl (fun state question =>
            foldl (App.case_cell session experiment keys question) state users)
     (db, grid) questions).1 = db.
Proof.
  intros e keys. revert grid.
  induction questions as [|question questions IH]; intros grid Hset; [done|].
  cbn [foldl].
  assert (∀ us grid',
            (∀ user, user ∈ us → user ∈ users) →
            (foldl (App.case_cell session experiment keys question) (db, grid') us).1 = db)
    as Hrow.
  { induction us as [|user us IHus]; intros grid' Hsub; [done|].
    cbn [foldl].
    pose proof (settled_cell session experiment question db grid' user) as Hcell.
    cbv zeta in Hcell. fold e keys in Hcell.
    destruct (App.case_cell session experiment keys question (db, grid') user)
      as [db' grid''] eqn:Hst.
    cbn [fst] in Hcell. rewrite Hcell.
    - apply IHus. intros user' Hin. apply Hsub. by right.
    - apply (Hset (Question.id question, User.id user)).
      unfold all_pairs. rewrite bind_cons. apply elem_of_app. left.
      apply (list_elem_of_fmap_2 (fun user => (Question.id question, User.id user))).
      apply Hsub. left. }
  specialize (Hrow users grid (fun _ H => H)).
  destruct (foldl (App.case_cell session experiment keys question) (db, grid) users)
    as [db' grid'] eqn:Hst.
  cbn [fst] in Hrow. subst db'. apply IH.
  intros p Hp. apply Hset. unfold all_pairs. rewrite bind_cons. apply elem_of_app. by right.
Qed.

(** Drawing the grid a second time, the session being as it was and
    both reads of the cases succeeding, writes nothing. *)
Lemma case_grid_twice (session : App.Session) (experiment : Experiment.t)
    (questions : list Question.t) (users : list User.t) (db : Db.Store) :
  NoDup (Question.id <$> questions) → NoDup (User.id <$> users) →
  cases_unique db → case_ids_fresh db →
  fails_at db 0 = false → fails_at db 1 = false →
  let st1 := App.case_grid session experiment questions users db in
  same_but_cases db st1.1
  ∧ (App.case_grid session experiment questions users st1.1).1 = Db.after_read st1.1.
Proof.
  intros Hq Hu Huniq Hfresh Hread1 Hread2 st1.
  rewrite fails_at_0 in Hread1.
  assert (Db.raises st1.1 = false) as Hread2'.
  { rewrite <- fails_at_0, <- Hread2. apply fails_at_tail, case_grid_faults. }
  pose proof (pass_inv_grid session experiment db questions users [] (Db.after_read db, []))
    as Hinv.
  cbv zeta in Hinv. rewrite app_nil_l in Hinv.
  assert (st1 = foldl (fun state question =>
                         foldl (App.case_cell session experiment
                                  (App.case_keys
                                     (filter (fun c => ExperimentCase.experiment_id c
                                                       = Experiment.id experiment)
                                        (Db.experiment_cases db))) question) state users)
                  (Db.after_read db, []) questions) as Hst1.
  { subst st1. unfold App.case_grid, Db.get_experiment_cases. by rewrite Hread1. }
  rewrite <- Hst1 in Hinv.
  destruct Hinv as (Hsame & _ & _ & Hdone & _); [done| |by apply all_pairs_NoDup|].
  { split_and!; cbn [fst snd]; [by repeat split|by exists []; rewrite app_nil_r|done
                               |by intros p ?%elem_of_nil|done]. }
  split; [done|].
  unfold App.case_grid at 1, Db.get_experiment_cases. rewrite Hread2'.
  change (Db.experiment_cases st1.1) with (Db.experiment_cases (Db.after_read st1.1)).
  apply settled_grid. intros p Hp Ha. cbn [Db.after_read Db.experiment_cases].
  apply Hdone; [done|]. rewrite <- Ha. symmetry.
  rewrite <- (answered_same db st1.1) by done. done.
Qed.


(** *** On the small store *)

(** The cell of Alice and the first question, drawn for the first time:
    the pair has an answer, no case is known and the box comes back
    ticked, so one row holding true is inserted. *)
Lemma case_cell_writes_witness :
  answered demo_db 1 1 = true
  ∧ Db.journal
      (App.case_cell ∅ (demo_experiment 7) ∅ demo_question1 (demo_db, []) demo_alice).1
    = Db.journal demo_db ++ [Db.InsertCase 7 1 1 true].
Proof.
  split; [reflexivity|].
  destruct (case_cell_writes ∅ (demo_experiment 7) ∅ demo_question1 demo_db [] demo_alice
              eq_refl) as (_ & _ & Hinsert & _).
  destruct (Hinsert eq_refl eq_refl) as [Hjournal _]. exact Hjournal.
Defined.

(** C2, as stated, fails where the pair has no case row.  On the small
    store Alice has answered the first question and experiment 7 has no
    case.  When the box, drawn ticked, comes back unticked, which is a new
    value, no row is made for the pair.  When the session holds nothing,
    so that every box comes back as it was drawn, three rows are
    inserted. *)
Lemma no_row_for_unticked_and_rows_for_untouched :
  let unticked : App.Session := {[ "case_7_1_1" := false ]} in
  let st := App.case_selection unticked (demo_prompt 1) (demo_experiment 7) demo_db in
  let st' := App.case_selection ∅ (demo_prompt 1) (demo_experiment 7) demo_db in
  answered demo_db 1 1 = true
  ∧ Db.experiment_cases demo_db = []
  ∧ App.Offered 1 1 true false ∈ st.2
  ∧ filter (fun c => tuple c = (7, 1, 1)%Z) (Db.experiment_cases st.1) = []
  ∧ st'.2 = [App.Offered 1 1 true true; App.Offered 1 2 true true;
             App.Offered 2 1 true true; App.NoAnswer 2 2]
  ∧ Db.journal st'.1
    = [Db.InsertCase 7 1 1 true; Db.InsertCase 7 1 2 true; Db.InsertCase 7 2 1 true].
Proof.
  split_and!; try (by vm_compute).
  vm_compute. left.
Qed.




(** C3, on a failing input.  Experiment 7 has one case row, ticked, for
    each of the three answered pairs of the small store, and the grid is
    drawn once more, no box touched.  The read of the cases of the
    experiment fails: the gateway answers with the empty list, the grid
    takes every pair to be without a row, and, each box coming back
    ticked, inserts a row for each answered pair.  The experiment then
    has two rows for each of these pairs, where the claim has at most
    one. *)
Theorem failed_read_duplicates_case_rows :
  let db := failing [true] (demo_selected 7 demo_db) in
  let st := App.case_selection ∅ (demo_prompt 1) (demo_experiment 7) db in
  ids_unique db
  ∧ cases_unique db
  ∧ tuple <$> Db.experiment_cases db = [(7, 1, 1); (7, 1, 2); (7, 2, 1)]%Z
  ∧ (Db.get_experiment_cases db 7).1 = []
  ∧ tuple <$> Db.experiment_cases st.1
    = [(7, 1, 1); (7, 1, 2); (7, 2, 1); (7, 1, 1); (7, 1, 2); (7, 2, 1)]%Z
  ∧ ¬ cases_unique st.1.
Proof.
  split_and!; [split; by_computing|by_computing|reflexivity|reflexivity|reflexivity|].
  unfold cases_unique. intros Hnd.
  assert (tuple <$> Db.experiment_cases
            (App.case_selection ∅ (demo_prompt 1) (demo_experiment 7)
               (failing [true] (demo_selected 7 demo_db))).1
          = [(7, 1, 1); (7, 1, 2); (7, 2, 1); (7, 1, 1); (7, 1, 2); (7, 2, 1)]%Z) as Hrows
    by reflexivity.
  rewrite Hrows in Hnd. apply NoDup_cons in Hnd as [Hnd _].
  apply Hnd. by_computing.
Qed.

(** ** The runner *)

Section RunnerProperties.
Context {C : Type} `{!App.GenerationClient C}.

(** *** One case *)

Lemma run_case_unfold (prompt : Prompt.t) (db : Db.Store) (ai : C) (cr : CaseResult.t) :
  let r := (ask prompt ai cr).1 in
  let db' := (App.run_case prompt (db, ai) cr).1 in
  (App.run_case prompt (db, ai) cr).2 = (ask prompt ai cr).2
  ∧ same_but_followups db db'
  ∧ Db.journal db' = Db.journal db ++ case_writes cr r
  ∧ Db.followup_questions db'
    = (if Db.raises db then Db.followup_questions db
       else filter (fun f => FollowupQuestion.answer_id f ≠ answer_id_of cr)
              (Db.followup_questions db))
      ++ match r !! "question" with
         | Some text =>
             [ {| FollowupQuestion.id := Db.next_followup_id db;
                  FollowupQuestion.answer_id := answer_id_of cr;
                  FollowupQuestion.followup_text := text;
                  FollowupQuestion.reason := r !! "reason" |} ]
         | None => []
         end
  ∧ (Db.next_followup_id db ≤ Db.next_followup_id db')%Z
  ∧ (is_Some (r !! "question") → (Db.next_followup_id db < Db.next_followup_id db')%Z)
  ∧ Db.faults db' = tail (Db.faults db).
Proof.
  intros r db'. subst r db'. unfold App.run_case, ask, case_writes, answer_id_of.
  destruct (App.generate_followup_questions _ _ _ _ _ _) as [r ai'] eqn:Hask. simpl.
  assert (bool_decide (r ≠ ∅) = false → r !! "question" = None) as Hempty.
  { intros Hne%bool_decide_eq_false. destruct (decide (r = ∅)) as [->|]; [done|].
    by destruct Hne. }
  destruct (r !! "question") as [text|] eqn:Hq; simpl.
  - destruct (bool_decide (r ≠ ∅)) eqn:Hne; [|by discriminate Hempty].
    simpl. split_and!; [done|done|by rewrite <- (assoc (++))|done|lia|intros _; lia|done].
  - by destruct (bool_decide (r ≠ ∅)); simpl;
      (split_and!; [done|done|done|by rewrite app_nil_r|lia|by intros [??]|done]).
Qed.

(** The follow-ups of the answers after a case: those of the answer of
    the case are the ones it had, when the deletion failed, and the one
    made from the result; those of another answer are as they were. *)
Lemma run_case_followups_of (prompt : Prompt.t) (db : Db.Store) (ai : C)
    (cr : CaseResult.t) (a : Z) :
  let db' := (App.run_case prompt (db, ai) cr).1 in
  (a ≠ answer_id_of cr → Db.get_followups_by_answer db' a = Db.get_followups_by_answer db a)
  ∧ texts (Db.get_followups_by_answer db' (answer_id_of cr))
    = (if Db.raises db then texts (Db.get_followups_by_answer db (answer_id_of cr)) else [])
      ++ expected (ask prompt ai cr).1
  ∧ (∀ f, f ∈ Db.followup_questions db' →
       f ∈ Db.followup_questions db
       ∨ FollowupQuestion.id f = Db.next_followup_id db
         ∧ FollowupQuestion.answer_id f = answer_id_of cr
         ∧ is_Some ((ask prompt ai cr).1 !! "question")).
Proof.
  intros db'. subst db'.
  destruct (run_case_unfold prompt db ai cr) as (_ & _ & _ & Hrows & _).
  cbv zeta in Hrows. unfold Db.get_followups_by_answer. rewrite Hrows, !filter_app.
  assert (∀ a' : Z, a' ≠ answer_id_of cr →
            filter (fun f => FollowupQuestion.answer_id f = a')
              (match (ask prompt ai cr).1 !! "question" with
               | Some text =>
                   [ {| FollowupQuestion.id := Db.next_followup_id db;
                        FollowupQuestion.answer_id := answer_id_of cr;
                        FollowupQuestion.followup_text := text;
                        FollowupQuestion.reason := (ask prompt ai cr).1 !! "reason" |} ]
               | None => []
               end) = []) as Hother.
  { intros a' Hne. apply filter_none. intros f Hf.
    destruct ((ask prompt ai cr).1 !! "question"); [|by apply elem_of_nil in Hf].
    apply list_elem_of_singleton in Hf as ->. simpl. congruence. }
  split_and!.
  - intros Hne. rewrite Hother, app_nil_r by done.
    destruct (Db.raises db); [done|].
    rewrite list_filter_filter. apply list_filter_iff. naive_solver.
  - unfold texts. rewrite fmap_app. f_equal.
    + destruct (Db.raises db); [done|].
      by rewrite list_filter_filter, filter_none by naive_solver.
    + unfold expected. destruct ((ask prompt ai cr).1 !! "question"); [|done].
      by rewrite filter_cons_True.
  - intros f [Hf|Hf]%elem_of_app.
    + left. destruct (Db.raises db); [done|]. by apply list_elem_of_filter in Hf as [_ ?].
    + right. destruct ((ask prompt ai cr).1 !! "question"); [|by apply elem_of_nil in Hf].
      apply list_elem_of_singleton in Hf as ->. simpl. eauto.
Qed.

(** *** All the cases *)

Lemma run_cases_cons (prompt : Prompt.t) (st : Db.Store * C)
    (cr : CaseResult.t) (rest : list CaseResult.t) :
  App.run_cases prompt st (cr :: rest) = App.run_cases prompt (App.run_case prompt st cr) rest.
Proof. done. Qed.

Lemma same_but_followups_trans (db1 db2 db3 : Db.Store) :
  same_but_followups db1 db2 → same_but_followups db2 db3 → same_but_followups db1 db3.
Proof.
  intros (? & ? & ? & ? & ?) (? & ? & ? & ? & ?). repeat split; congruence.
Qed.

Lemma run_cases_effects (prompt : Prompt.t) (cases : list CaseResult.t)
    (db : Db.Store) (ai : C) :
  let db' := (App.run_cases prompt (db, ai) cases).1 in
  same_but_followups db db'
  ∧ Db.journal db'
    = Db.journal db ++ concat (zip_with case_writes cases (generated prompt ai cases))
  ∧ (Db.next_followup_id db ≤ Db.next_followup_id db')%Z
  ∧ Db.faults db' = drop (length cases) (Db.faults db)
  ∧ (∀ a, a ∉ answer_id_of <$> cases →
       Db.get_followups_by_answer db' a = Db.get_followups_by_answer db a)
  ∧ (∀ f, f ∈ Db.followup_questions db' →
       f ∈ Db.followup_questions db
       ∨ (Db.next_followup_id db ≤ FollowupQuestion.id f < Db.next_followup_id db')%Z
         ∧ FollowupQuestion.answer_id f ∈ answer_id_of <$> cases).
Proof.
  revert db ai. induction cases as [|cr cases IH]; intros db ai.
  - simpl. split_and!; [by repeat split|by rewrite app_nil_r|lia|done|done|].
    by left.
  - rewrite run_cases_cons.
    destruct (run_case_unfold prompt db ai cr)
      as (Hai & Hsame & Hj & Hrows & Hnext & Hlt & Hfaults).
    pose proof (run_case_followups_of prompt db ai cr) as Hof.
    cbv zeta in Hsame, Hj, Hrows, Hnext, Hlt, Hfaults, Hof.
    destruct (App.run_case prompt (db, ai) cr) as [db1 ai1]. simpl in *. subst ai1.
    destruct (IH db1 (ask prompt ai cr).2)
      as (Hsame' & Hj' & Hnext' & Hfaults' & Hframe' & Hnew').
    cbv zeta in Hsame', Hj', Hnext', Hfaults', Hframe', Hnew'.
    split_and!.
    + by eapply same_but_followups_trans.
    + by rewrite Hj', Hj, <- (assoc (++)).
    + lia.
    + rewrite Hfaults', Hfaults. destruct (Db.faults db); simpl; [by rewrite drop_nil|done].
    + intros a [Hne Ha]%not_elem_of_cons. rewrite Hframe' by done.
      by apply (Hof a).
    + intros f Hf. destruct (Hnew' f Hf) as [Hf1|[Hid Ha]].
      * destruct (proj2 (proj2 (Hof 0%Z)) f Hf1) as [?|(Hid & Ha & Hq)]; [by left|].
        right. specialize (Hlt Hq). split; [lia|]. rewrite Ha. left.
      * right. split; [lia|by right].
Qed.

Lemma run_cases_fresh (prompt : Prompt.t) (cases : list CaseResult.t)
    (db : Db.Store) (ai : C) :
  followup_ids_fresh db → followup_ids_fresh (App.run_cases prompt (db, ai) cases).1.
Proof.
  intros Hfresh f Hf.
  destruct (run_cases_effects prompt cases db ai) as (_ & _ & Hnext & _ & _ & Hnew).
  cbv zeta in Hnext, Hnew.
  destruct (Hnew f Hf) as [Hold|[Hid _]]; [|lia].
  specialize (Hfresh f Hold). lia.
Qed.

(** A follow-up that the answer of a case has after the run, the
    deletion of that case not having failed, was made by the run. *)
Lemma run_cases_made (prompt : Prompt.t) (cases : list CaseResult.t)
    (db : Db.Store) (ai : C) (i : nat) (cr : CaseResult.t) (f : FollowupQuestion.t) :
  let db' := (App.run_cases prompt (db, ai) cases).1 in
  cases !! i = Some cr → fails_at db i = false →
  f ∈ Db.followup_questions db' → FollowupQuestion.answer_id f = answer_id_of cr →
  (Db.next_followup_id db ≤ FollowupQuestion.id f < Db.next_followup_id db')%Z.
Proof.
  revert db ai i. induction cases as [|c cases IH]; intros db ai i db' Hcr Hok Hf Ha; [done|].
  subst db'. rewrite run_cases_cons in Hf |- *.
  destruct (run_case_unfold prompt db ai c)
    as (Hai & _ & _ & Hrows & Hnext & Hlt & Hfaults).
  cbv zeta in Hrows, Hnext, Hlt, Hfaults.
  destruct (App.run_case prompt (db, ai) c) as [db1 ai1]. simpl in *. subst ai1.
  destruct (run_cases_effects prompt cases db1 (ask prompt ai c).2)
    as (_ & _ & Hnext' & _ & _ & Hnew').
  cbv zeta in Hnext', Hnew'.
  destruct i as [|i]; simpl in Hcr.
  - injection Hcr as ->. rewrite fails_at_0 in Hok.
    destruct (Hnew' f Hf) as [Hf1|[Hid _]]; [|lia].
    rewrite Hrows, Hok in Hf1. apply elem_of_app in Hf1 as [Hf1|Hf1].
    { by apply list_elem_of_filter in Hf1 as [? _]. }
    destruct ((ask prompt ai cr).1 !! "question") eqn:Hq; [|by apply elem_of_nil in Hf1].
    apply list_elem_of_singleton in Hf1 as ->. simpl.
    specialize (Hlt (mk_is_Some _ _ eq_refl)). lia.
  - rewrite <- (fails_at_tail db db1) in Hok by done.
    specialize (IH db1 (ask prompt ai c).2 i Hcr Hok Hf Ha). simpl in IH. lia.
Qed.

(** With cases on distinct answers, the follow-ups of the answer of a
    case, after the run, are what the generation for that case gave,
    after the ones the answer had before the run when the deletion
    failed. *)
Lemma run_cases_exact (prompt : Prompt.t) (cases : list CaseResult.t)
    (db : Db.Store) (ai : C) (i : nat) (cr : CaseResult.t) (r : Ai.result) :
  NoDup (answer_id_of <$> cases) →
  cases !! i = Some cr → generated prompt ai cases !! i = Some r →
  texts (Db.get_followups_by_answer (App.run_cases prompt (db, ai) cases).1 (answer_id_of cr))
  = (if fails_at db i then texts (Db.get_followups_by_answer db (answer_id_of cr)) else [])
    ++ expected r.
Proof.
  revert db ai i. induction cases as [|c cases IH]; intros db ai i Hnd Hcr Hr; [done|].
  rewrite fmap_cons in Hnd. apply NoDup_cons in Hnd as [Hc Hnd].
  rewrite run_cases_cons.
  destruct (run_case_unfold prompt db ai c) as (Hai & _ & _ & _ & _ & _ & Hfaults).
  pose proof (run_case_followups_of prompt db ai c) as Hof.
  cbv zeta in Hof, Hfaults.
  destruct (App.run_case prompt (db, ai) c) as [db1 ai1]. simpl in Hai, Hof, Hfaults. subst ai1.
  destruct i as [|i]; simpl in Hcr, Hr.
  - injection Hcr as <-. injection Hr as <-.
    destruct (run_cases_effects prompt cases db1 (ask prompt ai c).2)
      as (_ & _ & _ & _ & Hframe & _).
    cbv zeta in Hframe. rewrite Hframe by done. rewrite fails_at_0.
    apply (Hof 0%Z).
  - rewrite (IH db1 (ask prompt ai c).2 i Hnd Hcr Hr).
    rewrite (fails_at_tail db db1) by done.
    destruct (Hof (answer_id_of cr)) as [Hsame _]. rewrite Hsame; [done|].
    intros Heq. apply Hc. rewrite <- Heq. apply list_elem_of_fmap_2.
    by eapply list_elem_of_lookup_2.
Qed.

(** Right after a case whose generation gave the empty result, its
    answer has no follow-up, or, the deletion having failed, those it
    had right before the case. *)
Lemma run_cases_failed_case (prompt : Prompt.t) (cases : list CaseResult.t)
    (db : Db.Store) (ai : C) (i : nat) (cr : CaseResult.t) :
  cases !! i = Some cr → generated prompt ai cases !! i = Some ∅ →
  Db.get_followups_by_answer
    (App.run_cases prompt (db, ai) (take (S i) cases)).1 (answer_id_of cr)
  = if fails_at db i
    then Db.get_followups_by_answer
           (App.run_cases prompt (db, ai) (take i cases)).1 (answer_id_of cr)
    else [].
Proof.
  revert db ai i. induction cases as [|c cases IH]; intros db ai i Hcr Hr; [done|].
  rewrite firstn_cons, run_cases_cons.
  destruct (run_case_unfold prompt db ai c)
    as (Hai & _ & _ & Hrows & _ & _ & Hfaults).
  cbv zeta in Hrows, Hfaults.
  destruct i as [|i]; simpl in Hcr, Hr.
  - injection Hcr as <-. injection Hr as Hr. rewrite Hr in Hrows.
    rewrite lookup_empty, app_nil_r in Hrows.
    rewrite !take_0, fails_at_0. cbn [App.run_cases foldl].
    unfold Db.get_followups_by_answer. rewrite Hrows.
    destruct (Db.raises db); [done|].
    rewrite list_filter_filter. apply filter_none. naive_solver.
  - rewrite firstn_cons, run_cases_cons.
    destruct (App.run_case prompt (db, ai) c) as [db1 ai1]. simpl in Hai, Hfaults. subst ai1.
    rewrite <- (fails_at_tail db db1) by done. by apply IH.
Qed.

Lemma length_generated (prompt : Prompt.t) (cases : list CaseResult.t) (ai : C) :
  length (generated prompt ai cases) = length cases.
Proof. revert ai. induction cases as [|c cases IH]; intros ai; simpl; [done|]. by rewrite IH. Qed.

Lemma inserts_of_writes (cases : list CaseResult.t) (results : list Ai.result) :
  length results = length cases →
  length (filter is_insert_followup (concat (zip_with case_writes cases results)))
  = length (filter has_question results).
Proof.
  revert results. induction cases as [|c cases IH]; intros [|r results] Hlen; try done.
  simpl in Hlen. cbn [zip_with concat]. rewrite filter_app, length_app, IH by lia.
  rewrite (filter_cons _ r). unfold case_writes, has_question.
  destruct (r !! "question") eqn:Hq.
  - rewrite decide_True by (rewrite bool_decide_eq_true_2; eauto). by vm_compute.
  - rewrite decide_False; [by vm_compute|].
    intros Hb. apply bool_decide_unpack in Hb. by destruct Hb.
Qed.

Lemma run_experiment_unfold (db : Db.Store) (ai : C)
    (experiment : Experiment.t) (prompt : Prompt.t) :
  let cases := Db.get_selected_experiment_cases_with_data db (Experiment.id experiment) in
  let run := App.run_experiment db ai experiment prompt in
  App.db_after run = (App.run_cases prompt (db, ai) cases).1
  ∧ App.ai_after run = (App.run_cases prompt (db, ai) cases).2
  ∧ (cases ≠ [] → App.report run = App.Completed (length cases)).
Proof.
  simpl. unfold App.run_experiment.
  destruct (Db.get_selected_experiment_cases_with_data _ _) as [|cr cases] eqn:Hj; [done|].
  by destruct (App.run_cases _ _ _).
Qed.

(** C1. Over a joined set of selected cases that is not empty, the run
    reports the number of the cases of the set, whatever the client
    gave.  The client is called once for each case, and the writing
    calls of the run are, case after case in the order of the set, the
    deletion of the follow-ups of the answer of the case, followed by
    the insertion of one follow-up when the result of the client for the
    case carries a question; so there are as many insertions as there
    are such results.  For a case to which the client gave the empty
    result the run calls for the deletion alone, and the run goes on
    with the cases after it; once the case is done its answer has no
    follow-up, or, the deletion having failed, the follow-ups it had
    right before the case and no other. *)
Theorem runner_isolates_failures (db : Db.Store) (ai : C)
    (experiment : Experiment.t) (prompt : Prompt.t) :
  let cases := Db.get_selected_experiment_cases_with_data db (Experiment.id experiment) in
  let results := generated prompt ai cases in
  let run := App.run_experiment db ai experiment prompt in
  cases ≠ [] →
  App.report run = App.Completed (length cases)
  ∧ length results = length cases
  ∧ Db.journal (App.db_after run)
    = Db.journal db ++ concat (zip_with case_writes cases results)
  ∧ length (filter is_insert_followup
              (drop (length (Db.journal db)) (Db.journal (App.db_after run))))
    = length (filter has_question results)
  ∧ (∀ i cr, cases !! i = Some cr → results !! i = Some ∅ →
       case_writes cr ∅ = [Db.DeleteFollowups (answer_id_of cr)]
       ∧ Db.get_followups_by_answer
           (App.run_cases prompt (db, ai) (take (S i) cases)).1 (answer_id_of cr)
         = if fails_at db i
           then Db.get_followups_by_answer
                  (App.run_cases prompt (db, ai) (take i cases)).1 (answer_id_of cr)
           else []).
Proof.
  intros cases results run Hne.
  destruct (run_experiment_unfold db ai experiment prompt) as (Hdb & _ & Hreport).
  fold cases run in Hdb, Hreport.
  destruct (run_cases_effects prompt cases db ai) as (_ & Hj & _).
  cbv zeta in Hj. fold results in Hj.
  split_and!.
  - by apply Hreport.
  - apply length_generated.
  - by rewrite Hdb.
  - rewrite Hdb, Hj, drop_app_length. apply inserts_of_writes, length_generated.
  - intros i cr Hcr Hr. split; [done|]. by apply run_cases_failed_case.
Qed.
End RunnerProperties.

(** *** The requests of a run *)

Lemma ask_request (prompt : Prompt.t) (ai : Ai.Gemini) (cr : CaseResult.t) :
  Prompt.model prompt ≠ "" → Prompt.temperature prompt ≠ 0%Qc →
  let ai' := (ask prompt ai cr).2 in
  Ai.service ai' = Ai.service ai
  ∧ Ai.pending ai' = tail (Ai.pending ai)
  ∧ Ai.sent ai' = Ai.sent ai ++ [request_of prompt cr].
Proof.
  intros Hm Ht. unfold ask, App.generate_followup_questions, App.gemini_client,
    Ai.generate_followup_questions, Ai.generate_followup_questions_with.
  rewrite request_carries_settings by done. fold (request_of prompt cr).
  unfold Ai.generate_content.
  destruct (Ai.pending ai) as [|[text|] rest]; simpl; [done| |done].
  by destruct (Py.truthy text).
Qed.

Lemma run_cases_requests (prompt : Prompt.t) (cases : list CaseResult.t)
    (db : Db.Store) (ai : Ai.Gemini) :
  Prompt.model prompt ≠ "" → Prompt.temperature prompt ≠ 0%Qc →
  let ai' := (App.run_cases prompt (db, ai) cases).2 in
  Ai.service ai' = Ai.service ai
  ∧ Ai.pending ai' = drop (length cases) (Ai.pending ai)
  ∧ Ai.sent ai' = Ai.sent ai ++ (request_of prompt <$> cases).
Proof.
  intros Hm Ht. revert db ai. induction cases as [|cr cases IH]; intros db ai.
  - simpl. by rewrite app_nil_r.
  - rewrite run_cases_cons.
    destruct (run_case_unfold prompt db ai cr) as (Hai & _).
    destruct (ask_request prompt ai cr Hm Ht) as (Hs & Hp & Hr).
    cbv zeta in Hs, Hp, Hr.
    destruct (App.run_case prompt (db, ai) cr) as [db1 ai1]. simpl in Hai. subst ai1.
    destruct (IH db1 (ask prompt ai cr).2) as (Hs' & Hp' & Hr').
    cbv zeta in Hs', Hp', Hr' |- *. rewrite Hs', Hp', Hr', Hs, Hp, Hr.
    split_and!; [done| |by rewrite fmap_cons, <- (assoc (++))].
    simpl. destruct (Ai.pending ai); simpl; [by rewrite drop_nil|done].
Qed.


(** *** The joined set from one run to the next *)

Lemma elem_of_concat {A} (x : A) (ls : list (list A)) :
  x ∈ concat ls ↔ ∃ l, x ∈ l ∧ l ∈ ls.
Proof.
  induction ls as [|l ls IH]; simpl.
  - split; [by intros ?%elem_of_nil|by intros (? & _ & ?%elem_of_nil)].
  - rewrite elem_of_app, IH. split.
    + intros [?|(l' & ? & ?)]; [exists l; split; [done|left]|exists l'; split; [done|by right]].
    + intros (l' & ? & [->|?]%elem_of_cons); [by left|right; eauto].
Qed.

Lemma answer_of_pair (db : Db.Store) (q u : Z) (a : Answer.t) :
  Db.get_answer_by_question_and_user db q u = Some a →
  a ∈ Db.answers db ∧ Answer.question_id a = q ∧ Answer.user_id a = u.
Proof.
  unfold Db.get_answer_by_question_and_user.
  intros Hin%head_Some_elem_of. apply list_elem_of_filter in Hin as [[??] ?]. done.
Qed.

Lemma join_case_refreshed (db db' : Db.Store) (c : ExperimentCase.t) :
  same_but_followups db db' →
  Db.join_case db' c = refreshed db' <$> Db.join_case db c.
Proof.
  intros (Hq & Hu & Ha & _). unfold Db.join_case.
  unfold Db.get_question_by_id, Db.get_user_by_id, Db.get_answer_by_question_and_user.
  rewrite Hq, Hu, Ha.
  destruct (head (filter _ (Db.questions db))); [|done].
  destruct (head (filter _ (Db.users db))); [|done].
  by destruct (head (filter _ (Db.answers db))).
Qed.

Lemma joined_refreshed (db db' : Db.Store) (e : Z) :
  same_but_followups db db' →
  Db.get_selected_experiment_cases_with_data db' e
  = refreshed db' <$> Db.get_selected_experiment_cases_with_data db e.
Proof.
  intros Hsame. unfold Db.get_selected_experiment_cases_with_data, Db.selected_cases.
  rewrite list_fmap_omap. rewrite (proj1 (proj2 (proj2 (proj2 Hsame)))).
  apply list_omap_ext, Forall2_same_length_lookup. split; [done|].
  intros i c c' Hc Hc'. simplify_eq. by apply join_case_refreshed.
Qed.

Lemma joined_answers_distinct (db : Db.Store) (e : Z) :
  cases_unique db → NoDup (Answer.id <$> Db.answers db) →
  NoDup (answer_id_of <$> Db.get_selected_experiment_cases_with_data db e).
Proof.
  intros Huniq Hids. unfold Db.get_selected_experiment_cases_with_data.
  assert (NoDup (tuple <$> Db.selected_cases db e)) as Hsel.
  { eapply sublist_NoDup; [apply Huniq|]. apply fmap_sublist, sublist_filter. }
  assert (∀ c, c ∈ Db.selected_cases db e → ExperimentCase.experiment_id c = e) as Hexp.
  { intros c [[? _] _]%list_elem_of_filter. done. }
  induction (Db.selected_cases db e) as [|c cases IH]; [constructor|].
  rewrite fmap_cons in Hsel. apply NoDup_cons in Hsel as [Hc Hsel].
  cbn [omap list_omap]. fold (omap (Db.join_case db) cases).
  destruct (Db.join_case db c) as [cr|] eqn:Hj.
  2: { apply IH; [done|]. intros c' Hc'. apply Hexp. by right. }
  rewrite fmap_cons. apply NoDup_cons. split.
  2: { apply IH; [done|]. intros c' Hc'. apply Hexp. by right. }
  intros (cr' & Hid & (c' & Hc' & Hj')%list_elem_of_omap)%list_elem_of_fmap.
  apply Hc. rewrite list_elem_of_fmap. exists c'. split; [|done].
  apply join_case_case in Hj as (_ & _ & _ & Ha & _).
  apply join_case_case in Hj' as (_ & _ & _ & Ha' & _).
  apply answer_of_pair in Ha as (Hin & Hq & Hu).
  apply answer_of_pair in Ha' as (Hin' & Hq' & Hu').
  assert (CaseResult.answer cr = CaseResult.answer cr') as Heq
    by (by apply (NoDup_fmap_eq Answer.id (Db.answers db))).
  unfold tuple. rewrite (Hexp c) by left. rewrite (Hexp c') by (by right).
  rewrite <- Hq, <- Hu, <- Hq', <- Hu', Heq. done.
Qed.

Lemma joined_answers_exist (db : Db.Store) (e : Z) (a : Z) :
  a ∈ answer_id_of <$> Db.get_selected_experiment_cases_with_data db e →
  a ∈ Answer.id <$> Db.answers db.
Proof.
  intros (cr & -> & (c & _ & Hj)%list_elem_of_omap)%list_elem_of_fmap.
  apply join_case_case in Hj as (_ & _ & _ & Ha & _).
  apply answer_of_pair in Ha as (Hin & _). unfold answer_id_of.
  by apply (list_elem_of_fmap_2 Answer.id).
Qed.

Section RerunProperties.
Context {C : Type} `{!App.GenerationClient C}.

Lemma ask_refreshed (prompt : Prompt.t) (ai : C) (db : Db.Store) (cr : CaseResult.t) :
  ask prompt ai (refreshed db cr) = ask prompt ai cr.
Proof. done. Qed.

Lemma run_case_refreshed (prompt : Prompt.t) (st : Db.Store * C)
    (db : Db.Store) (cr : CaseResult.t) :
  App.run_case prompt st (refreshed db cr) = App.run_case prompt st cr.
Proof. done. Qed.

Lemma run_cases_refreshed (prompt : Prompt.t) (st : Db.Store * C)
    (db : Db.Store) (cases : list CaseResult.t) :
  App.run_cases prompt st (refreshed db <$> cases) = App.run_cases prompt st cases.
Proof.
  revert st. induction cases as [|cr cases IH]; intros st; [done|].
  rewrite fmap_cons, !run_cases_cons, run_case_refreshed. apply IH.
Qed.

(** A run leaves everything but the follow-ups as it was, so that the
    next run of the experiment is over the same cases, and goes as a run
    over them from the store and the client the first run left. *)
Lemma rerun_unfold (db : Db.Store) (ai : C) (experiment : Experiment.t) (prompt : Prompt.t) :
  let cases := Db.get_selected_experiment_cases_with_data db (Experiment.id experiment) in
  let run1 := App.run_experiment db ai experiment prompt in
  let run2 := App.run_experiment (App.db_after run1) (App.ai_after run1) experiment prompt in
  same_but_followups db (App.db_after run1)
  ∧ Db.get_selected_experiment_cases_with_data (App.db_after run1) (Experiment.id experiment)
    = refreshed (App.db_after run1) <$> cases
  ∧ App.db_after run2
    = (App.run_cases prompt (App.db_after run1, App.ai_after run1) cases).1.
Proof.
  intros cases run1 run2.
  destruct (run_experiment_unfold db ai experiment prompt) as (Hdb & Hai & _).
  destruct (run_cases_effects prompt cases db ai) as (Hsame & _).
  fold cases run1 in Hdb, Hai. cbv zeta in Hsame. rewrite <- Hdb in Hsame.
  split_and!; [done|by apply joined_refreshed|].
  destruct (run_experiment_unfold (App.db_after run1) (App.ai_after run1) experiment prompt)
    as (Hdb2 & _).
  fold run2 in Hdb2. rewrite Hdb2, (joined_refreshed db) by done.
  by rewrite run_cases_refreshed.
Qed.

Lemma length_expected (r : Ai.result) : (length (expected r) ≤ 1)%nat.
Proof. unfold expected. destruct (r !! "question"); simpl; lia. Qed.

(** C8, amended.  Let the store hold at most one case row per
    experiment, question and user, and answers told apart by their
    identifiers.  A run of an experiment, and a second run right after
    it, write follow-ups for the answers of the joined cases, which are
    the selected cases with an answer row, and for no other answer: the
    follow-ups of any other answer are as they were, and the answer of a
    case of the experiment that is not selected, like the answer
    identifier of a follow-up whose answer row is gone, is one of these
    others.  The second run is over the same cases as the first.  After
    each of the two runs the follow-ups of the answer of a case whose
    deletion the store carried out in that run are what the generation
    of that run gave for the case: one follow-up when the result carries
    a question, none when it is empty, and never more than one. *)
Theorem rerun_replaces_followups (db : Db.Store) (ai : C)
    (experiment : Experiment.t) (prompt : Prompt.t) :
  cases_unique db → NoDup (Answer.id <$> Db.answers db) →
  let e := Experiment.id experiment in
  let cases := Db.get_selected_experiment_cases_with_data db e in
  let processed := answer_id_of <$> cases in
  let run1 := App.run_experiment db ai experiment prompt in
  let run2 := App.run_experiment (App.db_after run1) (App.ai_after run1) experiment prompt in
  Db.get_selected_experiment_cases_with_data (App.db_after run1) e
  = refreshed (App.db_after run1) <$> cases
  ∧ (∀ a, a ∉ processed →
       Db.get_followups_by_answer (App.db_after run1) a = Db.get_followups_by_answer db a
       ∧ Db.get_followups_by_answer (App.db_after run2) a = Db.get_followups_by_answer db a)
  ∧ (∀ c a, c ∈ Db.experiment_cases db →
       ExperimentCase.experiment_id c = e → ExperimentCase.is_selected c = false →
       Db.get_answer_by_question_and_user db
         (ExperimentCase.question_id c) (ExperimentCase.user_id c) = Some a →
       Answer.id a ∉ processed)
  ∧ (∀ f, f ∈ Db.followup_questions db →
       FollowupQuestion.answer_id f ∉ Answer.id <$> Db.answers db →
       FollowupQuestion.answer_id f ∉ processed)
  ∧ (∀ i cr, cases !! i = Some cr →
       (∀ r, generated prompt ai cases !! i = Some r →
          fails_at db i = false →
          texts (Db.get_followups_by_answer (App.db_after run1) (answer_id_of cr))
          = expected r)
       ∧ (∀ r, generated prompt (App.ai_after run1) cases !! i = Some r →
            fails_at (App.db_after run1) i = false →
            texts (Db.get_followups_by_answer (App.db_after run2) (answer_id_of cr))
            = expected r))
  ∧ (∀ i cr, cases !! i = Some cr →
       (fails_at db i = false →
        (length (Db.get_followups_by_answer (App.db_after run1) (answer_id_of cr)) ≤ 1)%nat)
       ∧ (fails_at (App.db_after run1) i = false →
          (length (Db.get_followups_by_answer (App.db_after run2) (answer_id_of cr)) ≤ 1)%nat)).
Proof.
  intros Huniq Hids e cases processed run1 run2.
  destruct (rerun_unfold db ai experiment prompt) as (Hsame & Hjoined & Hdb2).
  destruct (run_experiment_unfold db ai experiment prompt) as (Hdb1 & Hai1 & _).
  fold e cases run1 run2 in Hsame, Hjoined, Hdb2, Hdb1, Hai1.
  pose proof (joined_answers_distinct db e Huniq Hids) as Hnd. fold cases in Hnd.
  destruct (run_cases_effects prompt cases db ai) as (_ & _ & _ & _ & Hframe1 & _).
  destruct (run_cases_effects prompt cases (App.db_after run1) (App.ai_after run1))
    as (_ & _ & _ & _ & Hframe2 & _).
  cbv zeta in Hframe1, Hframe2. rewrite <- Hdb1 in Hframe1. rewrite <- Hdb2 in Hframe2.
  assert (∀ i cr, cases !! i = Some cr →
       (∀ r, generated prompt ai cases !! i = Some r →
          fails_at db i = false →
          texts (Db.get_followups_by_answer (App.db_after run1) (answer_id_of cr))
          = expected r)
       ∧ (∀ r, generated prompt (App.ai_after run1) cases !! i = Some r →
            fails_at (App.db_after run1) i = false →
            texts (Db.get_followups_by_answer (App.db_after run2) (answer_id_of cr))
            = expected r)) as Hexact.
  { intros i cr Hcr. split; intros r Hr Hok.
    - rewrite Hdb1, (run_cases_exact prompt cases db ai i cr r) by done.
      by rewrite Hok.
    - rewrite Hdb2,
        (run_cases_exact prompt cases (App.db_after run1) (App.ai_after run1) i cr r) by done.
      by rewrite Hok. }
  split_and!.
  - done.
  - intros a Ha. split; [by apply Hframe1|].
    rewrite Hframe2 by done. by apply Hframe1.
  - intros c a Hc He Hs Ha (cr & Hid & Hcr)%list_elem_of_fmap.
    apply joined_case_rows in Hcr as (Hc' & He' & Hs' & _ & _ & Ha' & _).
    assert (c = CaseResult.case cr) as ->; [|congruence].
    apply (NoDup_fmap_eq tuple (Db.experiment_cases db)); [done..|].
    apply answer_of_pair in Ha as (Hin & Hq & Hu).
    apply answer_of_pair in Ha' as (Hin' & Hq' & Hu').
    assert (a = CaseResult.answer cr) as Heq
      by (by apply (NoDup_fmap_eq Answer.id (Db.answers db))).
    unfold tuple. rewrite He, He', <- Hq, <- Hu, <- Hq', <- Hu', Heq. done.
  - intros f _ Hgone Hin. by apply Hgone, (joined_answers_exist db e).
  - done.
  - intros i cr Hcr.
    destruct (Hexact i cr Hcr) as [H1 H2].
    destruct (lookup_lt_is_Some_2 (generated prompt ai cases) i) as [r1 Hr1].
    { rewrite length_generated. by eapply lookup_lt_Some. }
    destruct (lookup_lt_is_Some_2 (generated prompt (App.ai_after run1) cases) i) as [r2 Hr2].
    { rewrite length_generated. by eapply lookup_lt_Some. }
    specialize (H1 r1 Hr1). specialize (H2 r2 Hr2).
    pose proof (length_expected r1). pose proof (length_expected r2).
    split; intros Hok; [specialize (H1 Hok); apply (f_equal length) in H1
                       |specialize (H2 Hok); apply (f_equal length) in H2];
      unfold texts in *; rewrite length_fmap in *; lia.
Qed.

End RerunProperties.

(** *** The result page after a run *)

Lemma sum_of_flags {A B} (f : A → nat) (P : B → bool) (xs : list A) (ys : list B) :
  length xs = length ys →
  (∀ i x y, xs !! i = Some x → ys !! i = Some y → f x = if P y then 1%nat else 0%nat) →
  sum_list (f <$> xs) = length (filter P ys).
Proof.
  revert ys. induction xs as [|x xs IH]; intros [|y ys] Hlen Hf; try done.
  simpl in Hlen. rewrite fmap_cons. cbn [sum_list sum_list_with].
  rewrite (Hf 0%nat x y eq_refl eq_refl).
  rewrite (IH ys) by (lia || (intros i; apply (Hf (S i)))).
  rewrite filter_cons. destruct (P y) eqn:HP.
  - rewrite decide_True by done. simpl. done.
  - rewrite decide_False by (by intros ?). done.
Qed.

Section ResultsAfterRun.
Context {C : Type} `{!App.GenerationClient C}.

End ResultsAfterRun.

(** ** The runner on the small store *)

(** Three selected cases, and a remote call that fails for the second
    one: the run reports three cases and leaves two follow-ups. *)
Lemma runner_isolates_failures_witness :
  let db := demo_selected 7 demo_db in
  let ai := demo_client [reply "Which tool?" "to be specific"; Ai.ApiRaise;
                         reply "Which deadline?" "to plan"] in
  let run := App.run_experiment db ai (demo_experiment 7) (demo_prompt 1) in
  length (Db.get_selected_experiment_cases_with_data db 7) = 3
  ∧ generated (demo_prompt 1) ai (Db.get_selected_experiment_cases_with_data db 7) !! 1
    = Some ∅
  ∧ App.report run = App.Completed 3
  ∧ length (Db.followup_questions (App.db_after run)) = 2.
Proof.
  split_and!; [reflexivity|by vm_compute| |by vm_compute].
  refine (proj1 (runner_isolates_failures (demo_selected 7 demo_db)
                   (demo_client [reply "Which tool?" "to be specific"; Ai.ApiRaise;
                                 reply "Which deadline?" "to plan"])
                   (demo_experiment 7) (demo_prompt 1) _)).
  intros Hnil. vm_compute in Hnil. discriminate Hnil.
Defined.

(** C8, as stated, fails: when every remote call fails, a case that is
    selected and answered has no follow-up after the first run and none
    after the second, where the claim has exactly one. *)
Lemma failed_generation_leaves_no_followup :
  let db := demo_deselected in
  let run1 := App.run_experiment db (demo_client []) (demo_experiment 7) (demo_prompt 1) in
  let run2 := App.run_experiment (App.db_after run1) (App.ai_after run1)
                (demo_experiment 7) (demo_prompt 1) in
  answer_id_of <$> Db.get_selected_experiment_cases_with_data db 7 = [10; 12]%Z
  ∧ answer_id_of <$> Db.get_selected_experiment_cases_with_data (App.db_after run1) 7
    = [10; 12]%Z
  ∧ App.report run1 = App.Completed 2
  ∧ App.report run2 = App.Completed 2
  ∧ Db.get_followups_by_answer (App.db_after run1) 10 = []
  ∧ Db.get_followups_by_answer (App.db_after run2) 10 = [].
Proof. split_and!; by vm_compute. Qed.

(** The store where Bob's case is no longer selected: a run and a second
    run leave the follow-up of Bob's answer as it was. *)
Lemma rerun_replaces_followups_witness :
  let db := demo_deselected in
  let ai := demo_client [Ai.ApiRaise; reply "Which one?" "to plan"] in
  let run1 := App.run_experiment db ai (demo_experiment 7) (demo_prompt 1) in
  let run2 := App.run_experiment (App.db_after run1) (App.ai_after run1)
                (demo_experiment 7) (demo_prompt 1) in
  Db.get_followups_by_answer db 11 ≠ []
  ∧ Db.get_followups_by_answer (App.db_after run1) 11 = Db.get_followups_by_answer db 11
  ∧ Db.get_followups_by_answer (App.db_after run2) 11 = Db.get_followups_by_answer db 11.
Proof.
  split; [by vm_compute|].
  destruct (rerun_replaces_followups demo_deselected
              (demo_client [Ai.ApiRaise; reply "Which one?" "to plan"])
              (demo_experiment 7) (demo_prompt 1)) as (_ & Hframe & _).
  - by_computing.
  - by_computing.
  - apply Hframe. by_computing.
Defined.


(** C10, on a failing input.  Experiments 7 and 8 both select Alice's
    answer to the first question, and experiment 7 has been run: the
    answer has the follow-up of that run.  In the run of experiment 8
    the deletion of the follow-ups of that answer fails: the gateway
    shows the error and answers [False], the runner goes on, and the
    follow-up it makes is stored after the one of experiment 7, which is
    still there, where the claim has it deleted and replaced. *)
Theorem failed_deletion_keeps_followups_of_other_experiment :
  let db := failing [false; false; false; true] (demo_selected 8 (demo_selected 7 demo_db)) in
  let ai := demo_client [reply "Which tool?" "to be specific"; Ai.ApiRaise; Ai.ApiRaise;
                         reply "Why that tool?" "to dig deeper"] in
  let run1 := App.run_experiment db ai (demo_experiment 7) (demo_prompt 1) in
  let run2 := App.run_experiment (App.db_after run1) (App.ai_after run1)
                (demo_experiment 8) (demo_prompt 1) in
  answer_id_of <$> Db.get_selected_experiment_cases_with_data db 7 = [10; 11; 12]%Z
  ∧ answer_id_of <$> Db.get_selected_experiment_cases_with_data (App.db_after run1) 8
    = [10; 11; 12]%Z
  ∧ texts (Db.get_followups_by_answer (App.db_after run1) 10)
    = [("Which tool?", Some "to be specific")]
  ∧ (Db.clear_followups_by_answer (App.db_after run1) 10).1 = false
  ∧ drop (length (Db.journal (App.db_after run1))) (Db.journal (App.db_after run2))
    = [Db.DeleteFollowups 10; Db.InsertFollowup 10 "Why that tool?" (Some "to dig deeper");
       Db.DeleteFollowups 11; Db.DeleteFollowups 12]
  ∧ texts (Db.get_followups_by_answer (App.db_after run2) 10)
    = [("Which tool?", Some "to be specific"); ("Why that tool?", Some "to dig deeper")].
Proof. split_and!; by vm_compute. Qed.


